(** * The matching engine of the PCTE Lost & Found system

    A shallow embedding of [preprocess], [DB.get_items] and the [Matcher]
    class of [lost.py], together with models of the library calls they are
    built from (NLTK's tokenizer, stopword list and Porter stemmer;
    scikit-learn's [TfidfVectorizer] and [cosine_similarity]; Python's
    [sorted], slicing and [str] methods).

    Text is modelled as 7-bit ASCII: a Python [str] is a [string], and the
    character classes below are the ASCII restrictions of Python's. *)

From Stdlib Require Import Bool Arith ZArith List Ascii String Lia.
From Stdlib Require Import Permutation Sorted PrimFloat.
Import ListNotations.

Open Scope string_scope.
Open Scope list_scope.
Open Scope nat_scope.

(** ** Python [str] methods *)

Module Str.

Definition code (c : ascii) : nat := nat_of_ascii c.

Definition is_upper (c : ascii) : bool := (65 <=? code c) && (code c <=? 90).
Definition is_lower (c : ascii) : bool := (97 <=? code c) && (code c <=? 122).
Definition is_digit (c : ascii) : bool := (48 <=? code c) && (code c <=? 57).
Definition is_alpha (c : ascii) : bool := is_upper c || is_lower c.

(** [\w] of the [re] module. *)
Definition is_word (c : ascii) : bool :=
  is_alpha c || is_digit c || (code c =? 95).

(** [str.isspace] on one character: space, \t, \n, \v, \f, \r and the
    separators 28..31. *)
Definition is_space (c : ascii) : bool :=
  (code c =? 32) || ((9 <=? code c) && (code c <=? 13))
  || ((28 <=? code c) && (code c <=? 31)).

Definition lower_char (c : ascii) : ascii :=
  if is_upper c then ascii_of_nat (code c + 32) else c.

(** [s.lower()] *)
Fixpoint lower (s : string) : string :=
  match s with
  | EmptyString => EmptyString
  | String c s' => String (lower_char c) (lower s')
  end.

Fixpoint all_chars (p : ascii -> bool) (s : string) : bool :=
  match s with
  | EmptyString => true
  | String c s' => p c && all_chars p s'
  end.

(** [s.isalpha()]: at least one character and all of them alphabetic. *)
Definition isalpha (s : string) : bool :=
  match s with
  | EmptyString => false
  | _ => all_chars is_alpha s
  end.

(** [sep.join(l)] *)
Fixpoint join (sep : string) (l : list string) : string :=
  match l with
  | [] => ""
  | [x] => x
  | x :: l' => (x ++ sep ++ join sep l')%string
  end.

(** [s.endswith(suf)] *)
Definition endswith (s suf : string) : bool :=
  let n := String.length s in
  let k := String.length suf in
  (k <=? n) && String.eqb (substring (n - k) k s) suf.

(** [s[:-k]] for [0 < k]; [chop 0 s] is [s], which is what
    [_replace_suffix] returns for the empty suffix. *)
Definition chop (k : nat) (s : string) : string :=
  substring 0 (String.length s - k) s.

(** [s[-1]], as an option: Python raises [IndexError] on the empty string. *)
Definition last_char (s : string) : option ascii :=
  match String.length s with
  | 0 => None
  | S n => String.get n s
  end.

(** The token read so far, if any; [cur] holds its characters, last one
    first. *)
Definition flush (cur : list ascii) : list string :=
  match cur with
  | [] => []
  | _ => [string_of_list_ascii (rev cur)]
  end.

(** Python truthiness of an optional string: [None] and [''] are falsy. *)
Definition truthy (o : option string) : bool :=
  match o with
  | None | Some EmptyString => false
  | Some _ => true
  end.

(** [o or '']. *)
Definition or_empty (o : option string) : string :=
  match o with
  | None => ""
  | Some s => s
  end.

End Str.

(** ** NLTK: the interface [preprocess] is written against

    [lost.py] imports [word_tokenize], [stopwords.words('english')] and
    [PorterStemmer] from NLTK; their code and data are not part of the
    repository.  The normalizer is therefore stated over this interface, and
    [Porter], [Treebank] and [english_stopwords] below give the instance
    [nltk] used to run it. *)

Class NLTK := {
  word_tokenize : string -> list string;
  STOPWORDS : list string;
  stem : string -> string
}.

(** [t in STOPWORDS] *)
Definition in_stopwords `{NLTK} (t : string) : bool :=
  existsb (String.eqb t) STOPWORDS.

(** [preprocess] of [lost.py].  The argument is optional because the guard
    [if not text] accepts [None] as well as ['']. *)
Definition preprocess `{NLTK} (text : option string) : string :=
  if negb (Str.truthy text) then ""
  else
    let text := Str.lower (Str.or_empty text) in
    let tokens := word_tokenize text in
    let tokens :=
      filter (fun t => Str.isalpha t && negb (in_stopwords t)) tokens in
    let tokens := map stem tokens in
    Str.join " " tokens.

(** The normalizer as the specification words it: a token sequence obtained
    by lowercasing, tokenizing, discarding tokens with a non-alphabetic
    character, removing stopwords and stemming; empty for null or empty
    input. *)
Definition spec_normalize `{NLTK} (text : option string) : list string :=
  match text with
  | None => []
  | Some EmptyString => []
  | Some s =>
      let lowered := Str.lower s in
      let toks := word_tokenize lowered in
      let alphabetic := filter Str.isalpha toks in
      let content := filter (fun t => negb (in_stopwords t)) alphabetic in
      map stem content
  end.

(** ** NLTK's [PorterStemmer] in its default mode, [NLTK_EXTENSIONS] *)

Module Porter.

Definition is_vowel_letter (c : ascii) : bool :=
  existsb (Ascii.eqb c) ["a"; "e"; "i"; "o"; "u"]%char.

(** [_is_consonant(word, i)] for every [i], left to right: a [y] is a
    consonant at index 0 and otherwise exactly when its predecessor is not. *)
Fixpoint consonant_flags (prev : option bool) (word : string) : list bool :=
  match word with
  | EmptyString => []
  | String c rest =>
      let b :=
        if is_vowel_letter c then false
        else if Ascii.eqb c "y" then
          match prev with None => true | Some p => negb p end
        else true in
      b :: consonant_flags (Some b) rest
  end.

Definition flags (word : string) : list bool := consonant_flags None word.

(** Occurrences of ["vc"] in the consonant/vowel sequence. *)
Fixpoint count_vc (fl : list bool) : nat :=
  match fl with
  | false :: ((true :: _) as rest) => S (count_vc rest)
  | _ :: rest => count_vc rest
  | [] => 0
  end.

Definition _measure (stem : string) : nat := count_vc (flags stem).

Definition _has_positive_measure (stem : string) : bool := 0 <? _measure stem.

Definition _contains_vowel (stem : string) : bool := existsb negb (flags stem).

Definition _ends_double_consonant (word : string) : bool :=
  match rev (list_ascii_of_string word), rev (flags word) with
  | c1 :: c2 :: _, f1 :: _ => Ascii.eqb c1 c2 && f1
  | _, _ => false
  end.

Definition _ends_cvc (word : string) : bool :=
  match rev (list_ascii_of_string word), rev (flags word) with
  | c1 :: _, f1 :: f2 :: f3 :: _ =>
      f3 && negb f2 && f1
      && negb (existsb (Ascii.eqb c1) ["w"; "x"; "y"]%char)
  | _, [f1; f2] => negb f2 && f1
  | _, _ => false
  end.

Definition _replace_suffix (word suffix replacement : string) : string :=
  (Str.chop (String.length suffix) word ++ replacement)%string.

(** A rule is [(suffix, replacement, condition)]; [None] is the source's
    [condition is None]. *)
Definition rule : Type := string * string * option (string -> bool).

Definition holds (condition : option (string -> bool)) (stem : string) : bool :=
  match condition with
  | None => true
  | Some f => f stem
  end.

Fixpoint _apply_rule_list (word : string) (rules : list rule) : string :=
  match rules with
  | [] => word
  | (suffix, replacement, condition) :: rest =>
      if String.eqb suffix "*d" && _ends_double_consonant word then
        let stem := Str.chop 2 word in
        if holds condition stem then (stem ++ replacement)%string else word
      else if Str.endswith word suffix then
        let stem := _replace_suffix word suffix "" in
        if holds condition stem then (stem ++ replacement)%string else word
      else _apply_rule_list word rest
  end.

Definition _step1a (word : string) : string :=
  if Str.endswith word "ies" && (String.length word =? 4) then
    _replace_suffix word "ies" "ie"
  else
    _apply_rule_list word
      [ ("sses", "ss", None); ("ies", "i", None); ("ss", "ss", None);
        ("s", "", None) ].

Definition last_letter (s : string) : string :=
  match Str.last_char s with
  | Some c => String c EmptyString
  | None => ""
  end.

Definition _step1b (word : string) : string :=
  if Str.endswith word "ied" then
    if String.length word =? 4 then _replace_suffix word "ied" "ie"
    else _replace_suffix word "ied" "i"
  else if Str.endswith word "eed" then
    let stem := _replace_suffix word "eed" "" in
    if 0 <? _measure stem then (stem ++ "ee")%string else word
  else
    let try_suffix (suffix : string) : option string :=
      if Str.endswith word suffix then
        let st := _replace_suffix word suffix "" in
        if _contains_vowel st then Some st else None
      else None in
    let found :=
      match try_suffix "ed" with
      | Some st => Some st
      | None => try_suffix "ing"
      end in
    match found with
    | None => word
    | Some intermediate_stem =>
        _apply_rule_list intermediate_stem
          [ ("at", "ate", None); ("bl", "ble", None); ("iz", "ize", None);
            ("*d", last_letter intermediate_stem,
             Some (fun _ =>
               negb (existsb (String.eqb (last_letter intermediate_stem))
                       ["l"; "s"; "z"])));
            ("", "e",
             Some (fun stem => (_measure stem =? 1) && _ends_cvc stem)) ]
    end.

Definition _step1c (word : string) : string :=
  let nltk_condition (stem : string) : bool :=
    (1 <? String.length stem)
    && match rev (flags stem) with f :: _ => f | [] => false end in
  _apply_rule_list word [ ("y", "i", Some nltk_condition) ].

Definition step2_rules (word : string) : list rule :=
  let m := Some _has_positive_measure in
  [ ("ational", "ate", m); ("tional", "tion", m); ("enci", "ence", m);
    ("anci", "ance", m); ("izer", "ize", m); ("bli", "ble", m);
    ("alli", "al", m); ("entli", "ent", m); ("eli", "e", m);
    ("ousli", "ous", m); ("ization", "ize", m); ("ation", "ate", m);
    ("ator", "ate", m); ("alism", "al", m); ("iveness", "ive", m);
    ("fulness", "ful", m); ("ousness", "ous", m); ("aliti", "al", m);
    ("iviti", "ive", m); ("biliti", "ble", m); ("fulli", "ful", m);
    ("logi", "log",
     Some (fun _ => _has_positive_measure (Str.chop 3 word))) ].

(** The source re-enters [_step2] on the word with [alli] replaced by [al];
    that word no longer ends in [alli], so the second entry goes straight to
    the rule list. *)
Definition _step2 (word : string) : string :=
  if Str.endswith word "alli"
     && _has_positive_measure (_replace_suffix word "alli" "")
  then
    let word' := _replace_suffix word "alli" "al" in
    _apply_rule_list word' (step2_rules word')
  else _apply_rule_list word (step2_rules word).

Definition _step3 (word : string) : string :=
  let m := Some _has_positive_measure in
  _apply_rule_list word
    [ ("icate", "ic", m); ("ative", "", m); ("alize", "al", m);
      ("iciti", "ic", m); ("ical", "ic", m); ("ful", "", m);
      ("ness", "", m) ].

Definition _step4 (word : string) : string :=
  let measure_gt_1 := Some (fun stem => 1 <? _measure stem) in
  _apply_rule_list word
    [ ("al", "", measure_gt_1); ("ance", "", measure_gt_1);
      ("ence", "", measure_gt_1); ("er", "", measure_gt_1);
      ("ic", "", measure_gt_1); ("able", "", measure_gt_1);
      ("ible", "", measure_gt_1); ("ant", "", measure_gt_1);
      ("ement", "", measure_gt_1); ("ment", "", measure_gt_1);
      ("ent", "", measure_gt_1);
      ("ion", "",
       Some (fun stem =>
         (1 <? _measure stem)
         && existsb (String.eqb (last_letter stem)) ["s"; "t"]));
      ("ou", "", measure_gt_1); ("ism", "", measure_gt_1);
      ("ate", "", measure_gt_1); ("iti", "", measure_gt_1);
      ("ous", "", measure_gt_1); ("ive", "", measure_gt_1);
      ("ize", "", measure_gt_1) ].

Definition _step5a (word : string) : string :=
  if Str.endswith word "e" then
    let stem := _replace_suffix word "e" "" in
    if 1 <? _measure stem then stem
    else if (_measure stem =? 1) && negb (_ends_cvc stem) then stem
    else word
  else word.

Definition _step5b (word : string) : string :=
  _apply_rule_list word
    [ ("ll", "l", Some (fun _ => 1 <? _measure (Str.chop 1 word))) ].

(** [self.pool]: irregular forms, from form to stem. *)
Definition pool : list (string * string) :=
  [ ("sky", "sky"); ("skies", "sky"); ("dying", "die"); ("lying", "lie");
    ("tying", "tie"); ("news", "news"); ("innings", "inning");
    ("inning", "inning"); ("outings", "outing"); ("outing", "outing");
    ("cannings", "canning"); ("canning", "canning"); ("howe", "howe");
    ("proceed", "proceed"); ("exceed", "exceed"); ("succeed", "succeed") ].

Fixpoint pool_get (word : string) (p : list (string * string)) : option string :=
  match p with
  | [] => None
  | (k, v) :: rest => if String.eqb word k then Some v else pool_get word rest
  end.

(** [PorterStemmer.stem(word)], with [to_lowercase=True]: the irregular
    forms are looked up with the lowercased word. *)
Definition stem (word : string) : string :=
  let st := Str.lower word in
  match pool_get st pool with
  | Some v => v
  | None =>
      if String.length word <=? 2 then st
      else
        _step5b (_step5a (_step4 (_step3 (_step2 (_step1c (_step1b
          (_step1a st)))))))
  end.

End Porter.

(** ** NLTK's [word_tokenize], restricted

    The real tokenizer (Punkt sentence splitting followed by the Treebank
    regular expressions) is reproduced here for text made of letters, digits
    and whitespace: whitespace separates tokens, a run of letters and digits
    is one token, and the Treebank contractions [cannot], [gimme], [gonna],
    [gotta], [lemme] and [wanna] are split in two.  Punctuation is only
    approximated: each character of [punctuation] becomes a token of its
    own, every other character, the period included, stays inside its
    token. *)

Module Treebank.

Definition punctuation : list nat :=
  [33; 34; 35; 36; 37; 38; 39; 40; 41; 44; 58; 59; 60; 62; 63; 64; 91; 93;
   96; 123; 125].

Definition is_punct (c : ascii) : bool :=
  existsb (Nat.eqb (Str.code c)) punctuation.

(** [cur] holds the characters of the token being read, last one first. *)
Fixpoint scan (s : string) (cur : list ascii) : list string :=
  match s with
  | EmptyString => Str.flush cur
  | String c rest =>
      if Str.is_space c then Str.flush cur ++ scan rest []
      else if is_punct c then
        Str.flush cur ++ [String c EmptyString] ++ scan rest []
      else scan rest (c :: cur)
  end.

Definition contractions : list string :=
  ["cannot"; "gimme"; "gonna"; "gotta"; "lemme"; "wanna"].

Definition split_contraction (t : string) : list string :=
  if existsb (String.eqb (Str.lower t)) contractions
  then [substring 0 3 t; substring 3 (String.length t - 3) t]
  else [t].

Definition word_tokenize (text : string) : list string :=
  flat_map split_contraction (scan text []).

End Treebank.

(** [stopwords.words('english')].  Later releases of the corpus add further
    contracted forms; all of them contain an apostrophe, so they never meet a
    token that passed [isalpha]. *)
Definition english_stopwords : list string :=
  [ "i"; "me"; "my"; "myself"; "we"; "our"; "ours"; "ourselves"; "you";
    "you're"; "you've"; "you'll"; "you'd"; "your"; "yours"; "yourself";
    "yourselves"; "he"; "him"; "his"; "himself"; "she"; "she's"; "her";
    "hers"; "herself"; "it"; "it's"; "its"; "itself"; "they"; "them";
    "their"; "theirs"; "themselves"; "what"; "which"; "who"; "whom"; "this";
    "that"; "that'll"; "these"; "those"; "am"; "is"; "are"; "was"; "were";
    "be"; "been"; "being"; "have"; "has"; "had"; "having"; "do"; "does";
    "did"; "doing"; "a"; "an"; "the"; "and"; "but"; "if"; "or"; "because";
    "as"; "until"; "while"; "of"; "at"; "by"; "for"; "with"; "about";
    "against"; "between"; "into"; "through"; "during"; "before"; "after";
    "above"; "below"; "to"; "from"; "up"; "down"; "in"; "out"; "on"; "off";
    "over"; "under"; "again"; "further"; "then"; "once"; "here"; "there";
    "when"; "where"; "why"; "how"; "all"; "any"; "both"; "each"; "few";
    "more"; "most"; "other"; "some"; "such"; "no"; "nor"; "not"; "only";
    "own"; "same"; "so"; "than"; "too"; "very"; "s"; "t"; "can"; "will";
    "just"; "don"; "don't"; "should"; "should've"; "now"; "d"; "ll"; "m";
    "o"; "re"; "ve"; "y"; "ain"; "aren"; "aren't"; "couldn"; "couldn't";
    "didn"; "didn't"; "doesn"; "doesn't"; "hadn"; "hadn't"; "hasn";
    "hasn't"; "haven"; "haven't"; "isn"; "isn't"; "ma"; "mightn";
    "mightn't"; "mustn"; "mustn't"; "needn"; "needn't"; "shan"; "shan't";
    "shouldn"; "shouldn't"; "wasn"; "wasn't"; "weren"; "weren't"; "won";
    "won't"; "wouldn"; "wouldn't" ].

(** The libraries [lost.py] binds at import time:
    [STOPWORDS = set(stopwords.words('english'))] and
    [STEMMER = PorterStemmer()]. *)
#[export] Instance nltk : NLTK := {
  word_tokenize := Treebank.word_tokenize;
  STOPWORDS := english_stopwords;
  stem := Porter.stem
}.

(** ** The record store: [DB.get_items] *)

(** A row of the [items] table, as the dictionary [get_items] builds from it.
    A [TEXT] column may hold NULL, which [sqlite3] hands over as [None]; the
    key and the type tag are taken to be present in every row. *)
Record item := {
  id : string;
  type : string;
  name : option string;
  description : option string;
  place : option string;
  date : option string;
  contact : option string;
  image_path : option string
}.

(** The table, in the order a scan returns its rows. *)
Definition DB : Type := list item.

(** A text as SQLite's pattern matcher reads it, a C string: it ends before
    the first NUL character. *)
Fixpoint c_string (s : string) : string :=
  match s with
  | EmptyString => EmptyString
  | String c s' =>
      if Ascii.eqb c Ascii.zero then EmptyString else String c (c_string s')
  end.

(** SQLite's [patternCompare] for [LIKE]: [%] matches any run of
    characters, [_] any single one, letters compare without regard to
    case. *)
Fixpoint pattern_compare (pattern text : string) : bool :=
  match pattern with
  | EmptyString => match text with EmptyString => true | _ => false end
  | String p pattern' =>
      if Ascii.eqb p "%" then
        (fix any (t : string) : bool :=
           pattern_compare pattern' t
           || match t with
              | EmptyString => false
              | String _ t' => any t'
              end) text
      else
        match text with
        | EmptyString => false
        | String c text' =>
            (Ascii.eqb p "_"
             || Ascii.eqb (Str.lower_char p) (Str.lower_char c))
            && pattern_compare pattern' text'
        end
  end.

(** [text LIKE pattern]: both operands are read as C strings.  This is the
    answer for a pattern of at most 50000 bytes; SQLite refuses a longer one
    with an error. *)
Definition sql_like (pattern text : string) : bool :=
  pattern_compare (c_string pattern) (c_string text).

(** [col LIKE ?] on a nullable column: NULL is never a match. *)
Definition column_like (pattern : string) (col : option string) : bool :=
  match col with
  | None => false
  | Some s => sql_like pattern s
  end.

Definition matches_search (search : string) (it : item) : bool :=
  let pat := ("%" ++ search ++ "%")%string in
  column_like pat (name it) || column_like pat (description it)
  || column_like pat (place it).

(** [DB.get_items(type=None, search=None)]: the four branches test the
    arguments for truthiness, so an empty string counts as absent. *)
Definition get_items (db : DB) (type_ search : option string) : list item :=
  if Str.truthy type_ && Str.truthy search then
    filter (fun it => String.eqb (type it) (Str.or_empty type_)
                      && matches_search (Str.or_empty search) it) db
  else if Str.truthy type_ then
    filter (fun it => String.eqb (type it) (Str.or_empty type_)) db
  else if Str.truthy search then
    filter (matches_search (Str.or_empty search)) db
  else db.

(** ** Python built-ins used by the matcher *)

Module Py.

(** [sorted(l, key=key, reverse=True)].  Python's sort is stable, also under
    [reverse=True]; for keys compared by [ltb] (Python's [<]) the outcome is
    that of this insertion sort, which puts an element in front of the first
    one it is not smaller than. *)
Fixpoint insert_desc {A K : Type} (ltb : K -> K -> bool) (key : A -> K)
    (x : A) (l : list A) : list A :=
  match l with
  | [] => [x]
  | y :: l' =>
      if ltb (key x) (key y) then y :: insert_desc ltb key x l'
      else x :: l
  end.

Definition sorted_reverse {A K : Type} (ltb : K -> K -> bool) (key : A -> K)
    (l : list A) : list A :=
  fold_right (insert_desc ltb key) [] l.

(** [l[:k]] for a Python integer [k]: a negative [k] counts from the end. *)
Definition slice_to {A : Type} (k : Z) (l : list A) : list A :=
  if (0 <=? k)%Z then firstn (Z.to_nat k) l
  else firstn (List.length l - Z.to_nat (- k)) l.

(** [zip(a, b)] *)
Definition zip {A B : Type} (a : list A) (b : list B) : list (A * B) :=
  combine a b.

End Py.

(** ** Exceptions *)

Inductive exn : Type :=
| ValueError (msg : string).

Inductive outcome (A : Type) : Type :=
| Returns (a : A)
| Raises (e : exn).

Arguments Returns {A} a.
Arguments Raises {A} e.

(** ** Binary64 arithmetic of NumPy *)

Module Np.

Open Scope float_scope.

(** [float(n)]; exact below 2^53. *)
Fixpoint of_nat (n : nat) : float :=
  match n with
  | O => 0
  | S n' => of_nat n' + 1
  end.

(** Brings [x] into [0.75, 1.5] by halving or doubling, counting the steps. *)
Fixpoint reduce (fuel : nat) (x k : float) : float * float :=
  match fuel with
  | O => (x, k)
  | S fuel' =>
      if 1.5 <? x then reduce fuel' (x / 2) (k + 1)
      else if x <? 0.75 then reduce fuel' (x * 2) (k - 1)
      else (x, k)
  end.

(** [1/i + z2/(i+2) + z2^2/(i+4) + ...], [terms] summands. *)
Fixpoint odd_series (terms : nat) (i z2 : float) : float :=
  match terms with
  | O => 0
  | S terms' => 1 / i + z2 * odd_series terms' (i + 2) z2
  end.

Definition ln2 : float := 0x1.62e42fefa39efp-1.

(** [numpy.log] on a binary64.  NumPy defers to the platform's [log], which
    is not correctly rounded; this model computes
    [k*ln 2 + 2*atanh((m-1)/(m+1))] for [x = m*2^k] and agrees with any
    [log] at [1.0], where the result is exactly [0.0]. *)
Definition log (x : float) : float :=
  if negb (x =? x) then nan
  else if x <? 0 then nan
  else if x =? 0 then neg_infinity
  else if x =? infinity then infinity
  else
    let '(m, k) := reduce 2200 x 0 in
    let z := (m - 1) / (m + 1) in
    k * ln2 + 2 * (z * odd_series 24 1 (z * z)).

End Np.

(** ** scikit-learn: [TfidfVectorizer] and [cosine_similarity]

    Defaults of [TfidfVectorizer()]: [lowercase=True],
    [token_pattern=r"(?u)\b\w\w+\b"], [norm='l2'], [use_idf=True],
    [smooth_idf=True], [sublinear_tf=False], [min_df=1], [max_df=1.0]. *)

Module Sklearn.

(** Maximal runs of [\w] characters; [cur] is the run being read, last
    character first. *)
Fixpoint word_runs (s : string) (cur : list ascii) : list string :=
  match s with
  | EmptyString => Str.flush cur
  | String c rest =>
      if Str.is_word c then word_runs rest (c :: cur)
      else Str.flush cur ++ word_runs rest []
  end.

(** [re.findall(r"(?u)\b\w\w+\b", doc)]: the runs of two or more word
    characters. *)
Definition tokenize (doc : string) : list string :=
  filter (fun t => 2 <=? String.length t) (word_runs doc []).

(** [build_analyzer()]: lowercase, then tokenize. *)
Definition analyzer (doc : string) : list string :=
  tokenize (Str.lower doc).

(** The sorted set of terms: [vocabulary_] maps a term to its rank here. *)
Fixpoint insert_term (t : string) (l : list string) : list string :=
  match l with
  | [] => [t]
  | x :: l' =>
      match String.compare t x with
      | Lt => t :: l
      | Eq => l
      | Gt => x :: insert_term t l'
      end
  end.

Definition build_vocabulary (docs : list (list string)) : list string :=
  fold_right insert_term [] (List.concat docs).

Record TfidfVectorizer := {
  vocabulary_ : list string;
  idf_ : list float
}.

Definition occurrences (t : string) (toks : list string) : nat :=
  List.length (filter (String.eqb t) toks).

Definition document_frequency (t : string) (docs : list (list string)) : nat :=
  List.length (filter (fun toks => existsb (String.eqb t) toks) docs).

(** [idf = log((1 + n) / (1 + df)) + 1] *)
Definition idf (n df : nat) : float :=
  (Np.log (Np.of_nat (1 + n) / Np.of_nat (1 + df)) + 1)%float.

(** [TfidfVectorizer().fit(raw_documents)].  An empty vocabulary is an
    error of [CountVectorizer._count_vocab]. *)
Definition fit (raw_documents : list string) : outcome TfidfVectorizer :=
  let docs := map analyzer raw_documents in
  let vocabulary := build_vocabulary docs in
  match vocabulary with
  | [] =>
      Raises (ValueError
        "empty vocabulary; perhaps the documents only contain stop words")
  | _ =>
      Returns {| vocabulary_ := vocabulary;
                 idf_ := map (fun t =>
                                idf (List.length docs) (document_frequency t docs))
                             vocabulary |}
  end.

(** Row normalization of [sklearn.preprocessing.normalize]: a row whose
    squared norm sums to zero is left alone. *)
Definition normalize_row (row : list float) : list float :=
  let sum_ := fold_left (fun acc x => (acc + x * x)%float) row 0%float in
  if (sum_ =? 0)%float then row
  else
    let norm := sqrt sum_ in
    map (fun x => (x / norm)%float) row.

(** One row of [transform]: term counts over the fitted vocabulary, scaled
    by [idf_], then L2-normalized.  Terms outside the vocabulary are not
    counted. *)
Definition transform_row (v : TfidfVectorizer) (doc : string) : list float :=
  let toks := analyzer doc in
  let counts := map (fun t => Np.of_nat (occurrences t toks)) (vocabulary_ v) in
  normalize_row (map (fun '(c, w) => (c * w)%float) (combine counts (idf_ v))).

Definition transform (v : TfidfVectorizer) (docs : list string)
    : list (list float) :=
  map (transform_row v) docs.

Definition dot (x y : list float) : float :=
  fold_left (fun acc '(a, b) => (acc + a * b)%float) (combine x y) 0%float.

(** [cosine_similarity(X, Y)]: both arguments are normalized again, then
    multiplied. *)
Definition cosine_similarity (X Y : list (list float)) : list (list float) :=
  let Xn := map normalize_row X in
  let Yn := map normalize_row Y in
  map (fun x => map (dot x) Yn) Xn.

End Sklearn.

(** ** The [Matcher] class *)

Record Matcher := {
  db : DB;
  vectorizer : option Sklearn.TfidfVectorizer;
  corpus_ids : list string;
  corpus_texts : list string
}.

(** [Matcher(db)] *)
Definition Matcher_init (d : DB) : Matcher :=
  {| db := d; vectorizer := None; corpus_ids := []; corpus_texts := [] |}.

(** A method of [Matcher] reads and updates [self] and either returns or
    raises; the fields assigned before an exception keep their new values. *)
Definition M (A : Type) : Type := Matcher -> Matcher * outcome A.

Definition ret {A : Type} (a : A) : M A := fun self => (self, Returns a).

Definition bind {A B : Type} (m : M A) (f : A -> M B) : M B :=
  fun self =>
    match m self with
    | (self', Returns a) => f a self'
    | (self', Raises e) => (self', Raises e)
    end.

Definition get_self : M Matcher := fun self => (self, Returns self).

Definition lift {A : Type} (o : outcome A) : M A := fun self => (self, o).

Definition set_corpus (ids texts : list string) : M unit :=
  fun self =>
    ({| db := db self; vectorizer := vectorizer self;
        corpus_ids := ids; corpus_texts := texts |}, Returns tt).

Definition set_vectorizer (v : option Sklearn.TfidfVectorizer) : M unit :=
  fun self =>
    ({| db := db self; vectorizer := v;
        corpus_ids := corpus_ids self; corpus_texts := corpus_texts self |},
     Returns tt).

Notation "x <- m ;; k" := (bind m (fun x => k))
  (at level 61, m at next level, right associativity).
Notation "m ;;; k" := (bind m (fun _ => k))
  (at level 61, right associativity).

(** [(it['name'] or '') + ' ' + (it['description'] or '') + ' ' +
    (it['place'] or '')] *)
Definition document_text (it : item) : string :=
  (Str.or_empty (name it) ++ " " ++ Str.or_empty (description it) ++ " "
   ++ Str.or_empty (place it))%string.

(** [Matcher.build] *)
Definition build `{NLTK} (opposite_type : string) : M unit :=
  self <- get_self ;;
  let items := get_items (db self) (Some opposite_type) None in
  let ids := map id items in
  let texts := map (fun it => preprocess (Some (document_text it))) items in
  set_corpus ids texts ;;;
  if List.length texts =? 0 then set_vectorizer None
  else
    v <- lift (Sklearn.fit texts) ;;
    set_vectorizer (Some v).

(** [ranked = sorted(list(zip(self.corpus_ids, sims)), key=lambda x: x[1],
    reverse=True)], for scores of any type compared by [ltb]. *)
Definition ranked {score : Type} (ltb : score -> score -> bool)
    (ids : list string) (sims : list score) : list (string * score) :=
  Py.sorted_reverse ltb snd (Py.zip ids sims).

(** A fetched row together with its [_score] entry, if it has been given
    one.  The rows of [all_opposite] are shared between that list and
    [results]: the loop stores references, here positions in [all_opposite]. *)
Definition row : Type := item * option float.

(** Position of [rows[0]] for [rows = [it for it in all_opposite if
    it['id'] == cid]]. *)
Fixpoint first_with_id (cid : string) (rows : list row) (i : nat) : option nat :=
  match rows with
  | [] => None
  | (it, _) :: rest =>
      if String.eqb (id it) cid then Some i
      else first_with_id cid rest (S i)
  end.

(** [it['_score'] = score] on the row at position [i]. *)
Fixpoint set_score (i : nat) (score : float) (rows : list row) : list row :=
  match rows, i with
  | [], _ => []
  | (it, _) :: rest, O => (it, Some score) :: rest
  | r :: rest, S i' => r :: set_score i' score rest
  end.

(** The loop over [ranked[:topk]]. *)
Fixpoint attach_scores (top : list (string * float)) (all_opposite : list row)
    (results : list nat) : list row * list nat :=
  match top with
  | [] => (all_opposite, results)
  | (cid, score) :: rest =>
      match first_with_id cid all_opposite 0 with
      | Some i =>
          attach_scores rest (set_score i score all_opposite) (results ++ [i])
      | None => attach_scores rest all_opposite results
      end
  end.

(** What the caller sees in [results] once the loop is over. *)
Definition deref (all_opposite : list row) (results : list nat) : list row :=
  flat_map (fun i => match nth_error all_opposite i with
                     | Some r => [r]
                     | None => []
                     end) results.

Definition opposite_of (it : item) : string :=
  if String.eqb (type it) "lost" then "found" else "lost".

(** [sims = cosine_similarity(qv, corpus_v)[0]] for the query text and the
    corpus texts. *)
Definition similarities (v : Sklearn.TfidfVectorizer) (query : string)
    (texts : list string) : list float :=
  let qv := Sklearn.transform v [query] in
  let corpus_v := Sklearn.transform v texts in
  hd [] (Sklearn.cosine_similarity qv corpus_v).

(** [Matcher.find_matches(item, topk)] *)
Definition find_matches `{NLTK} (it : item) (topk : Z) : M (list row) :=
  let opposite := opposite_of it in
  build opposite ;;;
  self <- get_self ;;
  match vectorizer self with
  | None => ret []
  | Some v =>
      let query := preprocess (Some (document_text it)) in
      let sims := similarities v query (corpus_texts self) in
      let ranked_ := ranked PrimFloat.ltb (corpus_ids self) sims in
      let all_opposite :=
        map (fun r => (r, None)) (get_items (db self) (Some opposite) None) in
      let '(rows, results) :=
        attach_scores (Py.slice_to topk ranked_) all_opposite [] in
      ret (deref rows results)
  end.

(** ** Vocabulary of the statements below *)

(** A call is rejected when it raises instead of returning. *)
Definition rejected {A : Type} (o : outcome A) : Prop :=
  exists e, o = Raises e.

(** The same record under another type tag. *)
Definition with_type (t : string) (it : item) : item :=
  {| id := id it; type := t; name := name it;
     description := description it; place := place it; date := date it;
     contact := contact it; image_path := image_path it |}.

(** Two scores tie when neither is smaller than the other. *)
Definition tie {score : Type} (ltb : score -> score -> bool) (s : score)
    (x : string * score) : bool :=
  negb (ltb s (snd x)) && negb (ltb (snd x) s).

(** [x] is placed before [y] only if its score is not the smaller one. *)
Definition not_below {score : Type} (ltb : score -> score -> bool)
    (x y : string * score) : Prop :=
  ltb (snd x) (snd y) = false.

(** A token made of word characters only, as every alphabetic token is. *)
Definition wordy (t : string) : bool := Str.all_chars Str.is_word t.

(** A token sequence without its one-character tokens. *)
Definition drop_single (toks : list string) : list string :=
  filter (fun t => negb (String.length t =? 1)) toks.

(** [ltb] behaves as the strict part of a total preorder on the scores in
    [keys]: it is asymmetric and "not smaller" is transitive.  This is the
    case for [<] on floating-point numbers none of which is a NaN. *)
Definition weak_order_on {K : Type} (ltb : K -> K -> bool) (keys : list K)
    : Prop :=
  (forall a b, In a keys -> In b keys -> ltb a b = true -> ltb b a = false)
  /\ (forall a b c, In a keys -> In b keys -> In c keys ->
        ltb a b = false -> ltb b c = false -> ltb a c = false).

(** ** Sample records *)

Definition sample (i t : string) (n d p : option string) : item :=
  {| id := i; type := t; name := n; description := d; place := p;
     date := Some "2024-01-15"; contact := Some "9876543210";
     image_path := None |}.

Definition sample_db : DB :=
  [ sample "f1" "found" (Some "Blue umbrella") None (Some "");
    sample "f2" "found" (Some "red umbrella") (Some "") None;
    sample "l1" "lost" (Some "black wallet")
      (Some "leather wallet with cards") (Some "library");
    sample "f3" "found" (Some "black wallet") None (Some "library") ].

Definition lost_umbrella : item :=
  sample "q1" "lost" (Some "umbrella") None (Some "").

(** A store whose only [found] record normalizes to the empty document. *)
Definition digits_db : DB :=
  [ sample "f9" "found" (Some "12345") (Some "") (Some "") ].

(** A record whose type tag is outside the enumeration. *)
Definition stolen_wallet : item :=
  sample "q2" "stolen" (Some "black wallet") None (Some "library").

(** * The rest of the program *)

(** ** [str.strip] *)

Module Strip.

(** [s.lstrip()] *)
Fixpoint lstrip (s : string) : string :=
  match s with
  | EmptyString => EmptyString
  | String c s' => if Str.is_space c then lstrip s' else s
  end.

Definition reverse (s : string) : string :=
  string_of_list_ascii (rev (list_ascii_of_string s)).

(** [s.rstrip()] *)
Definition rstrip (s : string) : string := reverse (lstrip (reverse s)).

(** [s.strip()] *)
Definition strip (s : string) : string := rstrip (lstrip s).

(** [s[:n]] for [n >= 0]. *)
Definition prefix (n : nat) (s : string) : string := substring 0 n s.

End Strip.

(** ** [hashlib.sha256(data).hexdigest()]

    The interface the password functions are written against, and SHA-256
    itself (FIPS 180-4) on 32-bit words kept in [Z]. *)

Class Hashlib := {
  sha256_hexdigest : string -> string
}.

Module SHA256.

Open Scope Z_scope.

Definition mask (x : Z) : Z := x mod 4294967296.

Definition add32 (x y : Z) : Z := mask (x + y).

Definition rotr (n x : Z) : Z :=
  Z.lor (Z.shiftr x n) (mask (Z.shiftl x (32 - n))).

Definition is_prime (n : Z) : bool :=
  (2 <=? n)
  && forallb (fun d => negb (n mod d =? 0))
       (map Z.of_nat (seq 2 (Z.to_nat (Z.sqrt n) - 1))).

(** The first sixty-four primes, 2 to 311. *)
Definition primes : list Z := filter is_prime (map Z.of_nat (seq 2 310)).

(** The integer cube root of [n], found bit by bit from [r]. *)
Fixpoint root3 (bits : nat) (n r : Z) : Z :=
  match bits with
  | O => r
  | S b =>
      let c := r + 2 ^ Z.of_nat b in
      if c * c * c <=? n then root3 b n c else root3 b n r
  end.

(** The round constants: the first 32 bits of the fractional parts of the
    cube roots of the primes. *)
Definition K : list Z :=
  Eval vm_compute in map (fun p => mask (root3 40 (p * 2 ^ 96) 0)) primes.

(** The initial hash value: the same of the square roots of the first eight
    primes. *)
Definition H0 : list Z :=
  Eval vm_compute in map (fun p => mask (Z.sqrt (p * 2 ^ 64))) (firstn 8 primes).

Definition byte_of (c : ascii) : Z := Z.of_nat (nat_of_ascii c).

(** The message followed by [0x80], zeros up to 56 modulo 64, and the bit
    length on 8 bytes, most significant first. *)
Definition pad (msg : list Z) : list Z :=
  let len := Z.of_nat (List.length msg) in
  let zeros := Z.to_nat ((55 - len) mod 64) in
  let bits := 8 * len in
  msg ++ [128] ++ repeat 0 zeros
  ++ map (fun i => Z.shiftr bits (8 * (7 - Z.of_nat i)) mod 256) (seq 0 8).

Fixpoint words (bytes : list Z) : list Z :=
  match bytes with
  | a :: b :: c :: d :: rest =>
      (Z.shiftl a 24 + Z.shiftl b 16 + Z.shiftl c 8 + d) :: words rest
  | _ => []
  end.

Fixpoint chunks (n : nat) (fuel : nat) (l : list Z) : list (list Z) :=
  match fuel, l with
  | _, [] => []
  | O, _ => []
  | S fuel', _ => firstn n l :: chunks n fuel' (skipn n l)
  end.

Definition sigma0 (x : Z) : Z :=
  Z.lxor (Z.lxor (rotr 7 x) (rotr 18 x)) (Z.shiftr x 3).

Definition sigma1 (x : Z) : Z :=
  Z.lxor (Z.lxor (rotr 17 x) (rotr 19 x)) (Z.shiftr x 10).

Definition Sigma0 (x : Z) : Z :=
  Z.lxor (Z.lxor (rotr 2 x) (rotr 13 x)) (rotr 22 x).

Definition Sigma1 (x : Z) : Z :=
  Z.lxor (Z.lxor (rotr 6 x) (rotr 11 x)) (rotr 25 x).

Definition Ch (x y z : Z) : Z :=
  Z.lxor (Z.land x y) (Z.land (mask (Z.lnot x)) z).

Definition Maj (x y z : Z) : Z :=
  Z.lxor (Z.lxor (Z.land x y) (Z.land x z)) (Z.land y z).

(** The message schedule, latest word first: [w] holds [W(t-1), W(t-2), ...]. *)
Fixpoint schedule (n : nat) (w : list Z) : list Z :=
  match n with
  | O => w
  | S n' =>
      let next :=
        add32 (add32 (sigma1 (nth 1 w 0)) (nth 6 w 0))
              (add32 (sigma0 (nth 14 w 0)) (nth 15 w 0)) in
      schedule n' (next :: w)
  end.

Definition round (st : list Z) (kw : Z * Z) : list Z :=
  match st with
  | [a; b; c; d; e; f; g; h] =>
      let t1 :=
        add32 (add32 (add32 h (Sigma1 e)) (Ch e f g))
              (add32 (fst kw) (snd kw)) in
      let t2 := add32 (Sigma0 a) (Maj a b c) in
      [add32 t1 t2; a; b; c; add32 d t1; e; f; g]
  | _ => st
  end.

Definition compress (st : list Z) (block : list Z) : list Z :=
  let w := rev (schedule 48 (rev block)) in
  let st' := fold_left round (combine K w) st in
  map (fun p => add32 (fst p) (snd p)) (combine st st').

Definition hex_digit (d : Z) : ascii :=
  ascii_of_nat (Z.to_nat (if d <? 10 then 48 + d else 87 + d)).

Definition hex_word (x : Z) : string :=
  string_of_list_ascii
    (map (fun i => hex_digit (Z.shiftr x (4 * (7 - Z.of_nat i)) mod 16))
         (seq 0 8)).

Definition digest (msg : list Z) : list Z :=
  let ws := words (pad msg) in
  fold_left compress (chunks 16 (List.length ws) ws) H0.

(** [hashlib.sha256(s.encode()).hexdigest()] for ASCII [s]. *)
Definition hexdigest (s : string) : string :=
  String.concat "" (map hex_word (digest (map byte_of (list_ascii_of_string s)))).

End SHA256.

#[export] Instance hashlib : Hashlib := {
  sha256_hexdigest := SHA256.hexdigest
}.

(** ** The [items] table: [DB.add_item] *)

Inductive sqlite_error : Type :=
| IntegrityError (msg : string).

Definition has_id (d : DB) (i : string) : bool :=
  existsb (fun r => String.eqb (id r) i) d.

(** [DB.add_item(item)]: the [INSERT] fails on a key that is already in the
    table ([id TEXT PRIMARY KEY]); otherwise the row is added after the
    existing ones.  [inl] is the raised error, [inr] the table afterwards. *)
Definition add_item (d : DB) (it : item) : sqlite_error + DB :=
  if has_id d (id it) then
    inl (IntegrityError "UNIQUE constraint failed: items.id")
  else inr (d ++ [it]).

(** ** The [admin] table *)

(** A row is [(username, password_hash)]; [username] is [UNIQUE]. *)
Definition admin_table : Type := list (string * string).

(** [DB.hash_password] *)
Definition hash_password `{Hashlib} (password : string) : string :=
  sha256_hexdigest password.

(** [DB.verify_hash] *)
Definition verify_hash `{Hashlib} (password hashval : string) : bool :=
  String.eqb (sha256_hexdigest password) hashval.

(** [cur.fetchone()] of [SELECT password_hash FROM admin WHERE username=?] *)
Fixpoint select_hash (t : admin_table) (username : string) : option string :=
  match t with
  | [] => None
  | (u, h) :: rest =>
      if String.eqb u username then Some h else select_hash rest username
  end.

(** [DB.add_admin]: the [IntegrityError] of a taken username is swallowed
    and the table stays as it was. *)
Definition add_admin `{Hashlib} (t : admin_table) (username password : string)
    : admin_table :=
  let ph := hash_password password in
  match select_hash t username with
  | Some _ => t
  | None => t ++ [(username, ph)]
  end.

(** [DB.verify_admin] *)
Definition verify_admin `{Hashlib} (t : admin_table) (username password : string)
    : bool :=
  match select_hash t username with
  | None => false
  | Some h => verify_hash password h
  end.

(** The admin part of [DB._create]: [None] is a database without the table
    ([CREATE TABLE IF NOT EXISTS] makes it empty); the default account is
    added when the table has no row. *)
Definition create_admin `{Hashlib} (existing : option admin_table) : admin_table :=
  let t := match existing with Some t => t | None => [] end in
  if List.length t =? 0 then add_admin t "admin" "admin123" else t.

(** [LoginDialog.try_login]: [true] shows 'Admin login successful', [false]
    'Invalid credentials'. *)
Definition try_login `{Hashlib} (t : admin_table) (user pwd : string) : bool :=
  let u := Strip.strip user in
  let p := Strip.strip pwd in
  verify_admin t u p.

(** ** [Settings] *)

(** What [json.load] returns: JSON values as Python objects.  A [dict] is
    kept as its items in insertion order. *)
#[local] Unset Elimination Schemes.

Inductive json : Type :=
| JNull
| JBool (b : bool)
| JInt (z : Z)
| JFloat (f : float)
| JStr (s : string)
| JList (l : list json)
| JDict (d : list (string * json)).

#[local] Set Elimination Schemes.

Definition dict : Type := list (string * json).

(** [d.get(k)] *)
Fixpoint dict_get (k : string) (d : dict) : option json :=
  match d with
  | [] => None
  | (k', v) :: rest => if String.eqb k' k then Some v else dict_get k rest
  end.

(** [k in d] *)
Definition dict_mem (k : string) (d : dict) : bool :=
  match dict_get k d with
  | Some _ => true
  | None => false
  end.

(** [d[k] = v]: an existing key keeps its place, a new one goes last. *)
Fixpoint dict_set (k : string) (v : json) (d : dict) : dict :=
  match d with
  | [] => [(k, v)]
  | (k', v') :: rest =>
      if String.eqb k' k then (k', v) :: rest
      else (k', v') :: dict_set k v rest
  end.

(** [d.update(other)] *)
Definition dict_update (d other : dict) : dict :=
  fold_left (fun acc kv => dict_set (fst kv) (snd kv) acc) other d.

(** [self.data] as [Settings.__init__] builds it. *)
Definition default_settings : dict :=
  [ ("smtp", JDict [ ("enabled", JBool false); ("host", JStr "");
                     ("port", JInt 587); ("username", JStr "");
                     ("password", JStr ""); ("from_email", JStr "") ]);
    ("twilio", JDict [ ("enabled", JBool false); ("account_sid", JStr "");
                       ("auth_token", JStr ""); ("from_number", JStr "") ]);
    ("ui", JDict [ ("theme", JStr "cosmo"); ("dark", JBool false) ]) ].

(** One round of the merge loop of [Settings.load].  [None] is the
    [AttributeError] of calling [update] on a value that is not a [dict]. *)
Definition merge_item (data : dict) (kv : string * json) : option dict :=
  let '(k, v) := kv in
  match v with
  | JDict other =>
      match dict_get k data with
      | Some (JDict section) => Some (dict_set k (JDict (dict_update section other)) data)
      | Some _ => None
      | None => Some (dict_set k v data)
      end
  | _ => Some (dict_set k v data)
  end.

(** The loop: an exception ends it and leaves what was merged so far. *)
Fixpoint merge_items (data : dict) (loaded : dict) : dict :=
  match loaded with
  | [] => data
  | kv :: rest =>
      match merge_item data kv with
      | Some data' => merge_items data' rest
      | None => data
      end
  end.

(** The settings file as [load] meets it: absent, unreadable (opening or
    parsing raises), or parsed into a value. *)
Inductive settings_file : Type :=
| Absent
| Unreadable
| Parsed (j : json).

(** [Settings.load]: every exception is swallowed; a parsed value that is not
    a [dict] has no [items()]. *)
Definition load (file : settings_file) (data : dict) : dict :=
  match file with
  | Parsed (JDict loaded) => merge_items data loaded
  | _ => data
  end.

(** [Settings.save]: the file afterwards, as [json.load] will read it. *)
Definition save (data : dict) : settings_file := Parsed (JDict data).

(** [Settings(path).data] *)
Definition Settings_init (file : settings_file) : dict :=
  load file default_settings.

(** [self.settings.data[section][field]], when both lookups succeed. *)
Definition setting (data : dict) (section field : string) : option json :=
  match dict_get section data with
  | Some (JDict d) => dict_get field d
  | _ => None
  end.

(** ** The submission form and the record list of [App] *)

(** The values shown in one line of the list: [(it['type'],
    it['name'][:30], it['place'][:20], it['date'], it['contact'][:20])]. *)
Definition tree_row : Type := string * string * string * option string * string.

Inductive app_exn : Type :=
| SqliteError (e : sqlite_error)
| MatcherError (e : exn)
| TypeError (msg : string).

(** Slicing [None] raises [TypeError]; [None] here stands for that. *)
Definition tree_values (it : item) : option tree_row :=
  match name it, place it, contact it with
  | Some n, Some p, Some c =>
      Some (type it, Strip.prefix 30 n, Strip.prefix 20 p, date it,
            Strip.prefix 20 c)
  | _, _, _ => None
  end.

(** The loop of [refresh_list] over the fetched rows: the lines inserted so
    far, and the exception that stopped it, if any. *)
Fixpoint fill_tree (rows : list item) (tree : list tree_row)
    : list tree_row * option app_exn :=
  match rows with
  | [] => (tree, None)
  | it :: rest =>
      match tree_values it with
      | Some line => fill_tree rest (tree ++ [line])
      | None =>
          (tree, Some (TypeError "'NoneType' object is not subscriptable"))
      end
  end.

(** The widgets [submit_item] reads: the contents of the entries and of the
    description box, the type chosen, the image picked. *)
Record form := {
  type_var : string;
  name_entry : string;
  desc_text : string;
  place_entry : string;
  contact_entry : string;
  selected_image_path : option string
}.

(** The application: [self.db] and [self.matcher.db] are one object, kept
    here in the matcher. *)
Record App := {
  matcher : Matcher;
  widgets : form;
  search_var : string;
  tree : list tree_row
}.

Inductive dialog : Type :=
| ShowWarning (title message : string)
| ShowInfo (title message : string)
| MatchesPopup (submitted : item) (matches : list row).

Definition newline : string := String (ascii_of_nat 10) EmptyString.

(** [self.desc_text.get('1.0','end')]: Tk ends the text with a newline. *)
Definition text_get (content : string) : string := (content ++ newline)%string.

Definition with_db (m : Matcher) (d : DB) : Matcher :=
  {| db := d; vectorizer := vectorizer m; corpus_ids := corpus_ids m;
     corpus_texts := corpus_texts m |}.

(** [App.refresh_list] *)
Definition refresh_list (a : App) : App * option app_exn :=
  let search := Strip.strip (search_var a) in
  let '(lines, raised) :=
    fill_tree (get_items (db (matcher a)) None (Some search)) [] in
  ({| matcher := matcher a; widgets := widgets a;
      search_var := search_var a; tree := lines |}, raised).

(** [AppBase.common_clear_form] *)
Definition common_clear_form (f : form) : form :=
  {| type_var := type_var f; name_entry := ""; desc_text := "";
     place_entry := ""; contact_entry := ""; selected_image_path := None |}.

(** [App.submit_item].  [uuid] is [str(uuid.uuid4())] and [today] is
    [datetime.date.today().isoformat()] at the time of the call.  The result
    is the application afterwards, the dialogs shown, and the exception that
    left the handler, if any. *)
Definition submit_item `{NLTK} (uuid today : string) (a : App)
    : App * list dialog * option app_exn :=
  let f := widgets a in
  let itype := type_var f in
  let name_ := Strip.strip (name_entry f) in
  let desc := Strip.strip (text_get (desc_text f)) in
  let place_ := Strip.strip (place_entry f) in
  let contact_ := Strip.strip (contact_entry f) in
  let img := selected_image_path f in
  if String.eqb name_ "" && String.eqb desc "" then
    (a, [ShowWarning "Missing" "Please add at least a name or description"],
     None)
  else
    let it :=
      {| id := uuid; type := itype; name := Some name_;
         description := Some desc; place := Some place_; date := Some today;
         contact := Some contact_; image_path := img |} in
    match add_item (db (matcher a)) it with
    | inl e => (a, [], Some (SqliteError e))
    | inr d =>
        let saved := ShowInfo "Saved" "Item saved to database" in
        match find_matches it 5 (with_db (matcher a) d) with
        | (m, Raises e) =>
            ({| matcher := m; widgets := f; search_var := search_var a;
                tree := tree a |}, [saved], Some (MatcherError e))
        | (m, Returns matches) =>
            let shown :=
              match matches with
              | [] => [saved]
              | _ => [saved; MatchesPopup it matches]
              end in
            let '(a', raised) :=
              refresh_list
                {| matcher := m; widgets := common_clear_form f;
                   search_var := search_var a; tree := tree a |} in
            (a', shown, raised)
        end
    end.

(** ** Vocabulary of the further statements *)



(** A row that the record list can show. *)
Definition listable (it : item) : Prop :=
  name it <> None /\ place it <> None /\ contact it <> None.

(** Every default setting is still there. *)
Definition covers_defaults (data : dict) : Prop :=
  forall section field v,
    setting default_settings section field = Some v ->
    setting data section field <> None.

(** Dictionaries whose keys are distinct, as Python's are. *)
Definition distinct_keys (d : dict) : Prop := NoDup (map fst d).

(** ** Sample application states *)

Definition sample_form : form :=
  {| type_var := "lost"; name_entry := " Umbrella ";
     desc_text := "blue, folding"; place_entry := "canteen";
     contact_entry := "9876500000 "; selected_image_path := None |}.

Definition blank_form : form :=
  {| type_var := "found"; name_entry := "   "; desc_text := "";
     place_entry := "library"; contact_entry := "";
     selected_image_path := None |}.

(** A store as the form produces it: no text column is NULL. *)
Definition desk_db : DB :=
  [ sample "f1" "found" (Some "Blue umbrella") (Some "") (Some "gate");
    sample "l1" "lost" (Some "black wallet") (Some "leather")
      (Some "library") ].

Definition app_with (d : DB) (f : form) : App :=
  {| matcher := Matcher_init d; widgets := f; search_var := "";
     tree := [] |}.

(** * Properties *)

(** ** The text normalizer *)

Section Normalizer.

Context `{NLTK}.

Lemma filter_conj {A : Type} (p q : A -> bool) (l : list A) :
  filter (fun x => p x && q x) l = filter q (filter p l).
Proof.
  induction l as [| x l IH]; simpl; [reflexivity |].
  destruct (p x); simpl; [| exact IH].
  destruct (q x); simpl; now rewrite IH.
Qed.

Lemma falsy_cases (text : option string) :
  Str.truthy text = false -> text = None \/ text = Some "".
Proof.
  destruct text as [[| c s] |]; simpl; intros E; auto; discriminate.
Qed.

(** C1.  [preprocess] is the four-step pipeline of the specification:
    lowercase, tokenize, drop every token that is not purely alphabetic, drop
    stopwords, stem; its result is the single-space join of that token
    sequence.  For [None] and for the empty string the sequence is empty and
    the result is the empty string, without an exception. *)
Theorem preprocess_is_pipeline (text : option string) :
  preprocess text = Str.join " " (spec_normalize text)
  /\ spec_normalize None = [] /\ preprocess None = ""
  /\ spec_normalize (Some "") = [] /\ preprocess (Some "") = "".
Proof.
  split; [| repeat split].
  unfold preprocess, spec_normalize.
  destruct text as [[| c s] |]; simpl Str.truthy; simpl negb; cbv iota;
    try reflexivity.
  now rewrite filter_conj.
Qed.

(** C8, amended.  A token sequence that the tokenizer reads back from its
    own join, and whose tokens are alphabetic, outside the stopword set and
    fixed by the stemmer, is normalized to itself. *)
Theorem preprocess_fixed_tokens (toks : list string) :
  word_tokenize (Str.lower (Str.join " " toks)) = toks ->
  Forall (fun t => Str.isalpha t = true /\ in_stopwords t = false
                   /\ stem t = t) toks ->
  preprocess (Some (Str.join " " toks)) = Str.join " " toks.
Proof.
  intros Htok Hall. unfold preprocess.
  destruct (Str.truthy (Some (Str.join " " toks))) eqn:E; simpl negb; cbv iota.
  - simpl Str.or_empty. rewrite Htok. f_equal.
    clear Htok E. induction Hall as [| t l (Ha & Hs & Hst) _ IH]; simpl.
    + reflexivity.
    + rewrite Ha, Hs. simpl. now rewrite Hst, IH.
  - destruct (falsy_cases _ E) as [E' | E']; [discriminate |].
    now injection E' as ->.
Qed.

End Normalizer.

(** The stemmer is not a projection and may produce a stopword: [owned] is
    stemmed to [own], which the second pass removes. *)
Lemma owned_normalizes_to_own :
  preprocess (Some "owned") = "own" /\ preprocess (Some "own") = "".
Proof. split; vm_compute; reflexivity. Qed.

(** C8, as stated, fails: normalizing the output of [preprocess] on [owned]
    changes it. *)
Lemma preprocess_not_idempotent :
  preprocess (Some (preprocess (Some "owned"))) <> preprocess (Some "owned").
Proof. vm_compute. discriminate. Qed.

Lemma preprocess_fixed_tokens_witness :
  preprocess (Some (Str.join " " ["black"; "wallet"]))
  = Str.join " " ["black"; "wallet"].
Proof.
  apply (preprocess_fixed_tokens ["black"; "wallet"]).
  - vm_compute. reflexivity.
  - repeat constructor; vm_compute; reflexivity.
Defined.

(** ** Python's stable descending sort *)

Section Sorting.

Variables (A K : Type) (ltb : K -> K -> bool) (key : A -> K).

Local Abbreviation insert := (Py.insert_desc ltb key).
Local Abbreviation sorted := (Py.sorted_reverse ltb key).
Local Abbreviation R := (fun x y : A => ltb (key x) (key y) = false).

Lemma weak_order_incl (ks ks' : list K) :
  incl ks' ks -> weak_order_on ltb ks -> weak_order_on ltb ks'.
Proof.
  intros Hi [Ha Ht]. split.
  - intros a b Ia Ib. apply Ha; auto.
  - intros a b c Ia Ib Ic. apply Ht; auto.
Qed.

Lemma insert_perm (x : A) (l : list A) : Permutation (insert x l) (x :: l).
Proof.
  induction l as [| y l IH]; simpl; [reflexivity |].
  destruct (ltb (key x) (key y)); [| reflexivity].
  rewrite IH. apply perm_swap.
Qed.

Lemma sorted_perm (l : list A) : Permutation (sorted l) l.
Proof.
  induction l as [| x l IH]; simpl; [reflexivity |].
  unfold Py.sorted_reverse in *. simpl.
  rewrite insert_perm. now constructor.
Qed.

Lemma sorted_length (l : list A) : List.length (sorted l) = List.length l.
Proof. apply Permutation_length, sorted_perm. Qed.

Lemma insert_sorted (x : A) (l : list A) :
  weak_order_on ltb (map key (x :: l)) ->
  StronglySorted R l -> StronglySorted R (insert x l).
Proof.
  induction l as [| y l IH]; intros Hw Hs; simpl.
  - repeat constructor.
  - inversion Hs as [| ? ? Hs' Hy]; subst.
    destruct Hw as [Ha Ht].
    destruct (ltb (key x) (key y)) eqn:E.
    + constructor.
      * apply IH; [| exact Hs'].
        apply weak_order_incl with (ks := map key (x :: y :: l));
          [| split; assumption].
        intros k [<- | Hk]; simpl; auto.
      * apply Forall_forall. intros z Hz.
        apply (Permutation_in _ (insert_perm x l)) in Hz.
        destruct Hz as [<- | Hz].
        -- apply Ha in E; simpl; auto.
        -- rewrite Forall_forall in Hy. now apply Hy.
    + constructor; [exact Hs |].
      constructor; [exact E |].
      apply Forall_forall. intros z Hz.
      rewrite Forall_forall in Hy.
      apply Ht with (b := key y); simpl; auto.
      right. right. now apply in_map.
Qed.

Lemma sorted_sorted (l : list A) :
  weak_order_on ltb (map key l) -> StronglySorted R (sorted l).
Proof.
  induction l as [| x l IH]; intros Hw.
  - constructor.
  - change (sorted (x :: l)) with (insert x (sorted l)).
    apply insert_sorted.
    + apply weak_order_incl with (ks := map key (x :: l)); [| exact Hw].
      intros k Hk. apply in_map_iff in Hk as (z & <- & Hz).
      apply in_map.
      destruct Hz as [<- | Hz]; [now left | right].
      now apply (Permutation_in _ (sorted_perm l)).
    + apply IH.
      apply weak_order_incl with (ks := map key (x :: l)); [| exact Hw].
      intros k Hk. now right.
Qed.

Lemma insert_filter (P : A -> bool) (x : A) (l : list A) :
  (forall y, In y l -> ltb (key x) (key y) = true ->
             P x = true -> P y = true -> False) ->
  filter P (insert x l) = filter P (x :: l).
Proof.
  induction l as [| y l IH]; intros Hx; simpl; [reflexivity |].
  destruct (ltb (key x) (key y)) eqn:E; [| reflexivity].
  simpl. rewrite IH by (intros z Hz; apply Hx; now right).
  simpl. destruct (P y) eqn:Py; [| reflexivity].
  destruct (P x) eqn:Px; [| reflexivity].
  exfalso. apply (Hx y); auto. now left.
Qed.

(** Elements whose keys tie with [s] come out in the order they went in. *)
Lemma sorted_stable (s : K) (l : list A) :
  weak_order_on ltb (s :: map key l) ->
  let P := fun x => negb (ltb s (key x)) && negb (ltb (key x) s) in
  filter P (sorted l) = filter P l.
Proof.
  intros Hw P. induction l as [| x l IH]; [reflexivity |].
  change (sorted (x :: l)) with (insert x (sorted l)).
  rewrite insert_filter.
  - simpl. rewrite IH; [reflexivity |].
    apply weak_order_incl with (ks := s :: map key (x :: l)); [| exact Hw].
    intros k [<- | Hk]; [now left | right; now right].
  - intros y Hy E Px Py.
    apply (Permutation_in _ (sorted_perm l)) in Hy.
    destruct Hw as [_ Ht]. unfold P in Px, Py.
    apply andb_prop in Px as [_ Px]. apply andb_prop in Py as [Py _].
    apply negb_true_iff in Px, Py.
    assert (ltb (key x) (key y) = false) as E'.
    { apply Ht with (b := s); simpl; auto.
      right. right. now apply in_map. }
    congruence.
Qed.

End Sorting.

(** ** The loop that attaches scores *)

Lemma set_score_fst (i : nat) (s : float) (rows : list row) :
  map fst (set_score i s rows) = map fst rows.
Proof.
  revert i. induction rows as [| [it o] rows IH]; intros i.
  - destruct i; reflexivity.
  - destruct i; simpl; [reflexivity | now rewrite IH].
Qed.

Lemma set_score_nth (i j : nat) (s : float) (rows : list row) :
  nth_error (set_score i s rows) j
  = if j =? i
    then option_map (fun r => (fst r, Some s)) (nth_error rows j)
    else nth_error rows j.
Proof.
  revert i j. induction rows as [| [it o] rows IH]; intros i j.
  - destruct i, j; simpl; try reflexivity; now destruct (j =? i).
  - destruct i, j; simpl; try reflexivity. apply IH.
Qed.

Lemma first_with_id_found (cid : string) (rows : list row) (i0 : nat) :
  In cid (map (fun r => id (fst r)) rows) ->
  exists j it o, first_with_id cid rows i0 = Some (i0 + j)
                 /\ nth_error rows j = Some (it, o).
Proof.
  revert i0. induction rows as [| [it o] rows IH]; intros i0 Hin; simpl in *.
  - contradiction.
  - destruct (String.eqb (id it) cid) eqn:E.
    + exists 0, it, o. now rewrite Nat.add_0_r.
    + destruct Hin as [Hin | Hin].
      * apply String.eqb_neq in E. contradiction.
      * destruct (IH (S i0) Hin) as (j & it' & o' & Hf & Hn).
        exists (S j), it', o'. rewrite Hf. split; [f_equal; lia | exact Hn].
Qed.

(** A position is scored when the row stored there carries a [_score]. *)
Lemma attach_scores_spec (top : list (string * float)) :
  forall (heap : list row) (results : list nat) heap' results',
    attach_scores top heap results = (heap', results') ->
    (forall cid s, In (cid, s) top ->
                   In cid (map (fun r => id (fst r)) heap)) ->
    (forall i, In i results ->
               exists it s, nth_error heap i = Some (it, Some s)) ->
    map fst heap' = map fst heap
    /\ List.length results' = List.length results + List.length top
    /\ (forall i, In i results' ->
                  exists it s, nth_error heap' i = Some (it, Some s)).
Proof.
  induction top as [| [cid s] top IH]; intros heap results heap' results' E Hin Hsc;
    simpl in E.
  - injection E as <- <-. simpl. repeat split; auto.
  - destruct (first_with_id_found cid heap 0) as (j & it & o & Hf & Hn).
    { apply (Hin cid s). now left. }
    simpl in Hf. rewrite Hf in E.
    apply IH in E.
    + destruct E as (E1 & E2 & E3). rewrite set_score_fst in E1.
      repeat split; auto.
      rewrite E2, length_app. simpl. lia.
    + intros cid' s' H'.
      rewrite <- (map_map fst id (set_score j s heap)).
      rewrite set_score_fst, map_map. apply (Hin cid' s'). now right.
    + intros i Hi. apply in_app_or in Hi. rewrite set_score_nth.
      destruct (i =? j) eqn:Eij.
      * apply Nat.eqb_eq in Eij. subst i. rewrite Hn. simpl. eauto.
      * destruct Hi as [Hi | [Hi | []]]; [now apply Hsc |].
        subst i. now rewrite Nat.eqb_refl in Eij.
Qed.

Lemma deref_length (heap : list row) (results : list nat) :
  (forall i, In i results -> exists r, nth_error heap i = Some r) ->
  List.length (deref heap results) = List.length results.
Proof.
  induction results as [| i results IH]; intros Hv; simpl; [reflexivity |].
  destruct (Hv i) as [r Hr]; [now left |].
  rewrite Hr. simpl. f_equal. apply IH. intros j Hj. apply Hv. now right.
Qed.

Lemma deref_in (heap : list row) (results : list nat) (r : row) :
  In r (deref heap results) ->
  exists i, In i results /\ nth_error heap i = Some r.
Proof.
  unfold deref. intros Hr. apply in_flat_map in Hr as (i & Hi & Hr).
  exists i. split; [exact Hi |].
  destruct (nth_error heap i); simpl in Hr; [| contradiction].
  destruct Hr as [-> | []]. reflexivity.
Qed.

(** ** Slicing and zipping *)


Lemma firstn_in {A : Type} (n : nat) (l : list A) (x : A) :
  In x (firstn n l) -> In x l.
Proof.
  intros Hx. rewrite <- (firstn_skipn n l). apply in_or_app. now left.
Qed.

Lemma slice_to_in {A : Type} (k : Z) (l : list A) (x : A) :
  In x (Py.slice_to k l) -> In x l.
Proof.
  unfold Py.slice_to. destruct (0 <=? k)%Z; apply firstn_in.
Qed.

Lemma zip_snd_incl {A B : Type} (a : list A) (b : list B) :
  incl (map snd (Py.zip a b)) b.
Proof.
  intros y Hy. apply in_map_iff in Hy as ([x y'] & <- & Hxy).
  simpl. eapply in_combine_r. exact Hxy.
Qed.

Lemma similarities_length (v : Sklearn.TfidfVectorizer) (query : string)
    (texts : list string) :
  List.length (similarities v query texts) = List.length texts.
Proof.
  unfold similarities, Sklearn.cosine_similarity, Sklearn.transform. simpl.
  now rewrite !length_map.
Qed.

(** ** The match orchestrator *)

Section Orchestrator.

Context `{NLTK}.

Lemma opposite_of_cases (it : item) :
  opposite_of it = "found" \/ opposite_of it = "lost".
Proof. unfold opposite_of. destruct (String.eqb _ _); auto. Qed.

(** The matcher's query is the [elif type:] branch of [get_items]. *)
Lemma get_items_by_type (d : DB) (it : item) :
  get_items d (Some (opposite_of it)) None
  = filter (fun r => String.eqb (type r) (opposite_of it)) d.
Proof.
  destruct (opposite_of_cases it) as [-> | ->]; reflexivity.
Qed.

Lemma find_matches_cases (it : item) (k : Z) (m : Matcher) :
  let items := get_items (db m) (Some (opposite_of it)) None in
  let texts := map (fun r => preprocess (Some (document_text r))) items in
  (items = [] /\ snd (find_matches it k m) = Returns [])
  \/ (items <> [] /\ exists e,
        Sklearn.fit texts = Raises e
        /\ snd (find_matches it k m) = Raises e)
  \/ (items <> [] /\ exists v heap results,
        Sklearn.fit texts = Returns v
        /\ attach_scores
             (Py.slice_to k
                (ranked PrimFloat.ltb (map id items)
                   (similarities v (preprocess (Some (document_text it)))
                      texts)))
             (map (fun r => (r, None)) items) [] = (heap, results)
        /\ snd (find_matches it k m) = Returns (deref heap results)).
Proof.
  intros items texts.
  unfold find_matches, build, bind, get_self, set_corpus, set_vectorizer,
    lift, ret.
  cbn [db vectorizer corpus_ids corpus_texts fst snd].
  fold items. fold texts.
  destruct items as [| r items'] eqn:Ei.
  - left. split; reflexivity.
  - right. subst texts. rewrite <- Ei.
    set (texts := map (fun r => preprocess (Some (document_text r))) items).
    assert ((List.length texts =? 0) = false) as ->.
    { subst texts. rewrite Ei. reflexivity. }
    destruct (Sklearn.fit texts) as [v | e] eqn:Ef.
    + right. split; [congruence |].
      cbn [db vectorizer corpus_ids corpus_texts fst snd].
      destruct (attach_scores _ _ _) as [heap results] eqn:Ea.
      exists v, heap, results. repeat split. exact Ea.
    + left. split; [congruence |]. exists e. split; reflexivity.
Qed.

Lemma find_matches_keeps_db (it : item) (k : Z) (m : Matcher) :
  db (fst (find_matches it k m)) = db m.
Proof.
  unfold find_matches, build, bind, get_self, set_corpus, set_vectorizer,
    lift, ret.
  cbn [db vectorizer corpus_ids corpus_texts fst snd].
  destruct (List.length _ =? 0); cbn; [reflexivity |].
  destruct (Sklearn.fit _); cbn; [| reflexivity].
  destruct (attach_scores _ _ _); reflexivity.
Qed.

(** The outcome of a call is a function of the store alone: what earlier
    calls left in the matcher's fields is overwritten before it is read. *)
Lemma find_matches_reads_db_only (it : item) (k : Z) (m1 m2 : Matcher) :
  db m1 = db m2 ->
  snd (find_matches it k m1) = snd (find_matches it k m2).
Proof.
  intros E.
  unfold find_matches, build, bind, get_self, set_corpus, set_vectorizer,
    lift, ret.
  cbn [db vectorizer corpus_ids corpus_texts fst snd].
  rewrite E.
  destruct (List.length _ =? 0); cbn; [reflexivity |].
  destruct (Sklearn.fit _); cbn; [| reflexivity].
  destruct (attach_scores _ _ _); reflexivity.
Qed.

(** The loop finds every ranked id among the rows fetched again from the
    unchanged store, so it returns one scored row per ranked entry. *)
Lemma loop_spec (items : list item) (top : list (string * float))
    (heap : list row) (results : list nat) :
  (forall cid s, In (cid, s) top -> In cid (map id items)) ->
  attach_scores top (map (fun r => (r, None)) items) [] = (heap, results) ->
  List.length (deref heap results) = List.length top
  /\ Forall (fun r => In (fst r) items /\ exists s, snd r = Some s)
            (deref heap results).
Proof.
  intros Hin Ea.
  apply attach_scores_spec in Ea as (Ef & El & Hs).
  - rewrite map_map in Ef. simpl in Ef. rewrite map_id in Ef.
    split.
    + rewrite deref_length; [exact El |].
      intros i Hi. destruct (Hs i Hi) as (it & s & Hn). eauto.
    + apply Forall_forall. intros r Hr.
      apply deref_in in Hr as (i & Hi & Hn).
      destruct (Hs i Hi) as (it & s & Hn').
      rewrite Hn in Hn'. injection Hn' as ->. simpl. split; [| eauto].
      rewrite <- Ef. apply nth_error_In in Hn.
      apply (in_map fst) in Hn. exact Hn.
  - intros cid s Hc. rewrite map_map. simpl. exact (Hin cid s Hc).
  - intros i [].
Qed.

Lemma top_ids_known {score : Type} (ltb : score -> score -> bool)
    (ids : list string) (sims : list score) (k : Z) (cid : string)
    (s : score) :
  In (cid, s) (Py.slice_to k (ranked ltb ids sims)) -> In cid ids.
Proof.
  intros Hc. apply slice_to_in in Hc.
  apply (Permutation_in _ (sorted_perm _ _ ltb snd (Py.zip ids sims))) in Hc.
  eapply in_combine_l. exact Hc.
Qed.

Lemma ranked_length {score : Type} (ltb : score -> score -> bool)
    (ids : list string) (sims : list score) :
  List.length ids = List.length sims ->
  List.length (ranked ltb ids sims) = List.length ids.
Proof.
  intros E. unfold ranked. rewrite sorted_length.
  unfold Py.zip. rewrite length_combine. lia.
Qed.

End Orchestrator.

(** ** Ranking and orchestration *)

Section Matching.

Context `{NLTK}.

(** C4.  When the store holds no record of the opposite type,
    [find_matches] returns the empty list and raises nothing. *)
Theorem empty_corpus_no_matches (it : item) (k : Z) (m : Matcher) :
  get_items (db m) (Some (opposite_of it)) None = [] ->
  snd (find_matches it k m) = Returns [].
Proof.
  intros E.
  destruct (find_matches_cases it k m) as [[_ R] | [[N _] | [N _]]];
    [exact R | contradiction | contradiction].
Qed.


(** C9.  Every row returned by [find_matches] is a record of the store
    whose type is the opposite of the query's, carrying a score; its type is
    never the query's own.  This holds whatever the query's type tag is, in
    particular for [lost] and [found]. *)
Theorem results_are_opposite_records (it : item) (k : Z) (m : Matcher)
    (rows : list row) :
  snd (find_matches it k m) = Returns rows ->
  Forall (fun r => In (fst r) (db m)
                   /\ type (fst r) = opposite_of it
                   /\ type (fst r) <> type it
                   /\ exists s, snd r = Some s) rows.
Proof.
  intros Hr.
  assert (opposite_of it <> type it) as Hopp.
  { unfold opposite_of. destruct (String.eqb (type it) "lost") eqn:E.
    - apply String.eqb_eq in E. rewrite E. discriminate.
    - apply String.eqb_neq in E. congruence. }
  destruct (find_matches_cases it k m)
    as [[E R] | [[_ (e & _ & R)] | [_ (v & heap & results & _ & Ea & R)]]];
    rewrite R in Hr; try discriminate; injection Hr as <-.
  - constructor.
  - apply loop_spec in Ea as [_ Hf].
    + revert Hf. apply Forall_impl. intros r [Hin Hs].
      rewrite get_items_by_type in Hin.
      apply filter_In in Hin as [Hin Ht]. apply String.eqb_eq in Ht.
      repeat split; auto. congruence.
    + intros cid s. apply top_ids_known.
Qed.

(** C7, amended.  No type tag is rejected: a record whose type is anything
    but [lost] is handled exactly as a [found] record, that is, matched
    against the [lost] records of the store. *)
Theorem non_lost_type_is_treated_as_found (it : item) (k : Z) (m : Matcher) :
  type it <> "lost" ->
  opposite_of it = "lost"
  /\ find_matches it k m = find_matches (with_type "found" it) k m.
Proof.
  intros Ht.
  assert (opposite_of it = "lost") as E.
  { unfold opposite_of. apply String.eqb_neq in Ht. now rewrite Ht. }
  split; [exact E |].
  unfold find_matches. rewrite E. reflexivity.
Qed.

End Matching.

(** ** The vectorizer's tokens *)

Lemma lower_app (a b : string) :
  Str.lower (a ++ b) = (Str.lower a ++ Str.lower b)%string.
Proof. induction a as [| c a IH]; simpl; [reflexivity | now rewrite IH]. Qed.

Lemma lower_join (l : list string) :
  Str.lower (Str.join " " l) = Str.join " " (map Str.lower l).
Proof.
  induction l as [| t l IH]; [reflexivity |].
  destruct l as [| t' l]; [reflexivity |].
  change (Str.join " " (t :: t' :: l))
    with (t ++ " " ++ Str.join " " (t' :: l))%string.
  rewrite !lower_app, IH. reflexivity.
Qed.

Lemma lower_length (t : string) : String.length (Str.lower t) = String.length t.
Proof. induction t as [| c t IH]; simpl; [reflexivity | now rewrite IH]. Qed.

Lemma lower_char_word (c : ascii) :
  Str.is_word c = true -> Str.is_word (Str.lower_char c) = true.
Proof.
  destruct c as [[] [] [] [] [] [] [] []]; vm_compute; intros E;
    first [reflexivity | discriminate].
Qed.

Lemma lower_wordy (t : string) : wordy t = true -> wordy (Str.lower t) = true.
Proof.
  unfold wordy. induction t as [| c t IH]; simpl; [reflexivity |].
  intros E. apply andb_prop in E as [Ec Et].
  now rewrite lower_char_word, IH.
Qed.

Lemma flush_token (t : string) :
  Str.flush (rev (list_ascii_of_string t))
  = if String.length t =? 0 then [] else [t].
Proof.
  destruct t as [| c t]; [reflexivity |].
  unfold Str.flush.
  destruct (rev (list_ascii_of_string (String c t))) eqn:E.
  - apply (f_equal (@List.length ascii)) in E.
    rewrite length_rev in E. discriminate.
  - rewrite <- E, rev_involutive, string_of_list_ascii_of_string.
    reflexivity.
Qed.

Lemma word_runs_app (t s : string) (cur : list ascii) :
  wordy t = true ->
  Sklearn.word_runs (t ++ s) cur
  = Sklearn.word_runs s (rev (list_ascii_of_string t) ++ cur).
Proof.
  unfold wordy. revert cur. induction t as [| c t IH]; intros cur E; simpl in *.
  - reflexivity.
  - apply andb_prop in E as [Ec Et]. rewrite Ec, IH by exact Et.
    now rewrite <- app_assoc.
Qed.

Lemma word_runs_token (t : string) :
  wordy t = true ->
  Sklearn.word_runs t [] = if String.length t =? 0 then [] else [t].
Proof.
  intros E. rewrite <- flush_token.
  replace t with (t ++ "")%string at 1.
  - rewrite word_runs_app by exact E. now rewrite app_nil_r.
  - clear E. induction t as [| c t IH]; simpl; [reflexivity | now rewrite IH].
Qed.

Lemma word_runs_join (toks : list string) :
  Forall (fun t => wordy t = true) toks ->
  Sklearn.word_runs (Str.join " " toks) []
  = filter (fun t => negb (String.length t =? 0)) toks.
Proof.
  induction 1 as [| t l Ht Hl IH]; [reflexivity |].
  destruct l as [| t' l].
  - simpl Str.join. rewrite word_runs_token by exact Ht.
    simpl. now destruct (String.length t =? 0).
  - change (Str.join " " (t :: t' :: l))
      with (t ++ " " ++ Str.join " " (t' :: l))%string.
    rewrite word_runs_app by exact Ht.
    change (" " ++ Str.join " " (t' :: l))%string
      with (String " " (Str.join " " (t' :: l))).
    cbn [Sklearn.word_runs]. change (Str.is_word " ") with false. cbv iota.
    rewrite IH, app_nil_r, flush_token.
    change (filter _ (t :: t' :: l))
      with (if negb (String.length t =? 0)
            then t :: filter (fun t => negb (String.length t =? 0)) (t' :: l)
            else filter (fun t => negb (String.length t =? 0)) (t' :: l)).
    now destruct (String.length t =? 0).
Qed.

Lemma filter_absorb {A : Type} (p q : A -> bool) (l : list A) :
  (forall x, p x = true -> q x = true) ->
  filter p (filter q l) = filter p l.
Proof.
  intros Hpq. induction l as [| x l IH]; [reflexivity |].
  cbn [filter]. destruct (q x) eqn:Eq; cbn [filter]; rewrite IH.
  - reflexivity.
  - destruct (p x) eqn:Ep; [| reflexivity].
    apply Hpq in Ep. congruence.
Qed.

Lemma tokenize_join (toks : list string) :
  Forall (fun t => wordy t = true) toks ->
  Sklearn.tokenize (Str.join " " toks)
  = filter (fun t => 2 <=? String.length t) toks.
Proof.
  intros Hw. unfold Sklearn.tokenize. rewrite word_runs_join by exact Hw.
  apply filter_absorb. intros t Ht.
  destruct (String.length t); [discriminate | reflexivity].
Qed.

Lemma analyzer_join (toks : list string) :
  Forall (fun t => wordy t = true) toks ->
  Sklearn.analyzer (Str.join " " toks)
  = filter (fun t => 2 <=? String.length t) (map Str.lower toks).
Proof.
  intros Hw. unfold Sklearn.analyzer. rewrite lower_join.
  apply tokenize_join.
  induction Hw; constructor; auto using lower_wordy.
Qed.

Lemma drop_single_wordy (toks : list string) :
  Forall (fun t => wordy t = true) toks ->
  Forall (fun t => wordy t = true) (drop_single toks).
Proof.
  intros Hw. apply Forall_forall. intros t Ht.
  apply filter_In in Ht as [Ht _].
  rewrite Forall_forall in Hw. now apply Hw.
Qed.

(** Deleting the one-character tokens of a document does not change what
    the vectorizer reads from it. *)
Lemma analyzer_drop_single (toks : list string) :
  Forall (fun t => wordy t = true) toks ->
  Sklearn.analyzer (Str.join " " (drop_single toks))
  = Sklearn.analyzer (Str.join " " toks).
Proof.
  intros Hw.
  rewrite !analyzer_join by auto using drop_single_wordy.
  clear Hw. induction toks as [| t l IH]; [reflexivity |].
  unfold drop_single in *. cbn [filter map].
  destruct (String.length t =? 1) eqn:E; cbn [negb filter map].
  - rewrite lower_length. apply Nat.eqb_eq in E. rewrite E.
    cbn [Nat.leb]. exact IH.
  - now rewrite IH.
Qed.

Lemma insert_term_in (t x : string) (l : list string) :
  In x (Sklearn.insert_term t l) -> x = t \/ In x l.
Proof.
  induction l as [| y l IH]; simpl.
  - intros [<- | []]. now left.
  - destruct (String.compare t y); simpl.
    + auto.
    + intros [<- | Hx]; auto.
    + intros [<- | Hx]; auto. destruct (IH Hx); auto.
Qed.

Lemma build_vocabulary_in (docs : list (list string)) (x : string) :
  In x (Sklearn.build_vocabulary docs) -> In x (List.concat docs).
Proof.
  unfold Sklearn.build_vocabulary.
  induction (List.concat docs) as [| t l IH]; simpl; [auto |].
  intros Hx. apply insert_term_in in Hx as [-> | Hx]; auto.
Qed.

(** Every term of a fitted vocabulary has at least two characters. *)
Lemma vocabulary_terms_long (texts : list string) (v : Sklearn.TfidfVectorizer) :
  Sklearn.fit texts = Returns v ->
  Forall (fun t => 2 <= String.length t) (Sklearn.vocabulary_ v).
Proof.
  unfold Sklearn.fit. intros E. apply Forall_forall. intros t Ht.
  assert (In t (Sklearn.build_vocabulary (map Sklearn.analyzer texts))) as Hv.
  { destruct (Sklearn.build_vocabulary _); [discriminate |].
    injection E as <-. exact Ht. }
  apply build_vocabulary_in, in_concat in Hv as (doc & Hd & Hin).
  apply in_map_iff in Hd as (d & <- & _).
  unfold Sklearn.analyzer, Sklearn.tokenize in Hin.
  apply filter_In in Hin as [_ Hl]. now apply Nat.leb_le.
Qed.

(** A corpus none of whose documents yields a term cannot be fitted. *)
Lemma fit_raises_without_terms (texts : list string) :
  Forall (fun d => Sklearn.analyzer d = []) texts ->
  Sklearn.fit texts
  = Raises (ValueError
      "empty vocabulary; perhaps the documents only contain stop words").
Proof.
  intros Hall. unfold Sklearn.fit.
  assert (List.concat (map Sklearn.analyzer texts) = []) as E.
  { induction Hall as [| d l Hd _ IH]; simpl; [reflexivity |].
    now rewrite Hd, IH. }
  unfold Sklearn.build_vocabulary. rewrite E. reflexivity.
Qed.

(** C10.  No one-character token enters a fitted vocabulary, and the
    one-character tokens of the corpus and of the query have no effect on
    the scores: fitting and scoring give the same result once those tokens
    are deleted.  The normalizer does keep such tokens, as the [x] of
    [x ray] shows. *)
Theorem single_letter_tokens_are_ignored (corpus : list (list string))
    (query : list string) :
  Forall (Forall (fun t => wordy t = true)) corpus ->
  Forall (fun t => wordy t = true) query ->
  let texts := map (Str.join " ") corpus in
  let texts' := map (fun toks => Str.join " " (drop_single toks)) corpus in
  (forall v, Sklearn.fit texts = Returns v ->
             Forall (fun t => 2 <= String.length t) (Sklearn.vocabulary_ v))
  /\ Sklearn.fit texts' = Sklearn.fit texts
  /\ (forall v,
        similarities v (Str.join " " (drop_single query)) texts'
        = similarities v (Str.join " " query) texts)
  /\ preprocess (Some "x ray") = "x ray".
Proof.
  intros Hc Hq texts texts'.
  assert (map Sklearn.analyzer texts' = map Sklearn.analyzer texts) as Ea.
  { unfold texts, texts'. rewrite !map_map. apply map_ext_in.
    intros toks Ht. apply analyzer_drop_single.
    rewrite Forall_forall in Hc. now apply Hc. }
  split; [| split; [| split]].
  4: vm_compute; reflexivity.
  - intros v. apply vocabulary_terms_long.
  - unfold Sklearn.fit. now rewrite Ea.
  - intros v. unfold similarities, Sklearn.transform.
    assert (forall d d', Sklearn.analyzer d = Sklearn.analyzer d' ->
              Sklearn.transform_row v d = Sklearn.transform_row v d') as Hrow.
    { intros d d' E. unfold Sklearn.transform_row. now rewrite E. }
    f_equal. f_equal.
    + cbn [map]. f_equal. apply Hrow, analyzer_drop_single, Hq.
    + unfold texts, texts'. rewrite !map_map. apply map_ext_in.
      intros toks Ht. apply Hrow, analyzer_drop_single.
      rewrite Forall_forall in Hc. now apply Hc.
Qed.

(** ** Evaluations on the sample store *)

(** C2.  With a store whose only [found] record is named [12345], matching
    a lost record raises [ValueError] from [fit]: the corpus is not empty, so
    the guard of [build] does not apply, but its only document is. *)
Theorem blank_corpus_raises :
  snd (find_matches lost_umbrella 5 (Matcher_init digits_db))
  = Raises (ValueError
      "empty vocabulary; perhaps the documents only contain stop words").
Proof. vm_compute. reflexivity. Qed.

(** C7, as stated, fails: a record typed [stolen] is not rejected; it is
    matched against the lost records and comes back with [l1]. *)
Lemma unknown_type_is_not_rejected :
  ~ rejected (snd (find_matches stolen_wallet 5 (Matcher_init sample_db)))
  /\ exists r, snd (find_matches stolen_wallet 5 (Matcher_init sample_db))
               = Returns [r]
               /\ id (fst r) = "l1".
Proof.
  split.
  - intros [e He]. vm_compute in He. discriminate.
  - eexists. split; [vm_compute; reflexivity | reflexivity].
Qed.

(** The umbrella query against the sample store: the two umbrellas tie and
    come back in corpus order, ahead of the wallet. *)
Example umbrella_ranking :
  exists rows,
    snd (find_matches lost_umbrella 5 (Matcher_init sample_db)) = Returns rows
    /\ map (fun r => id (fst r)) rows = ["f1"; "f2"; "f3"].
Proof. eexists. split; vm_compute; reflexivity. Qed.

Lemma non_lost_type_is_treated_as_found_witness :
  opposite_of stolen_wallet = "lost"
  /\ find_matches stolen_wallet 5 (Matcher_init sample_db)
     = find_matches (with_type "found" stolen_wallet) 5 (Matcher_init sample_db).
Proof.
  apply (non_lost_type_is_treated_as_found stolen_wallet 5
           (Matcher_init sample_db)).
  discriminate.
Defined.

Lemma empty_corpus_no_matches_witness :
  snd (find_matches lost_umbrella 5
         (Matcher_init [sample "l1" "lost" (Some "black wallet") None None]))
  = Returns [].
Proof.
  apply (empty_corpus_no_matches lost_umbrella 5).
  reflexivity.
Defined.


Lemma results_are_opposite_records_witness :
  exists r rows,
    snd (find_matches lost_umbrella 5 (Matcher_init sample_db))
    = Returns (r :: rows)
    /\ Forall (fun r => In (fst r) sample_db
                        /\ type (fst r) = "found"
                        /\ type (fst r) <> "lost"
                        /\ exists s, snd r = Some s) (r :: rows).
Proof.
  eexists. eexists. split; [vm_compute; reflexivity |].
  apply (results_are_opposite_records lost_umbrella 5 (Matcher_init sample_db)).
  vm_compute. reflexivity.
Defined.

Lemma single_letter_tokens_are_ignored_witness :
  let corpus := [["x"; "ray"; "film"]; ["blue"; "umbrella"; "b"]] in
  Sklearn.fit (map (fun toks => Str.join " " (drop_single toks)) corpus)
  = Sklearn.fit (map (Str.join " ") corpus).
Proof.
  intros corpus.
  apply (single_letter_tokens_are_ignored corpus ["x"; "ray"]).
  - repeat constructor.
  - repeat constructor.
Defined.

(** * Further properties *)

(** ** Queries on the record store *)



Lemma like_percent_step (p : string) (c : ascii) (t : string) :
  pattern_compare (String "%" p) (String c t)
  = pattern_compare p (String c t) || pattern_compare (String "%" p) t.
Proof. destruct t; reflexivity. Qed.

Lemma like_percent_nil (p : string) :
  pattern_compare (String "%" p) "" = pattern_compare p "".
Proof. cbn. apply orb_false_r. Qed.

(** A leading [%] lets the rest of the pattern start anywhere. *)
Lemma like_percent (p t : string) :
  pattern_compare (String "%" p) t = true
  <-> exists a b, t = (a ++ b)%string /\ pattern_compare p b = true.
Proof.
  induction t as [| c t IH].
  - rewrite like_percent_nil. split.
    + intros E. exists "", "". auto.
    + intros (a & b & E & L). destruct a; [| discriminate].
      simpl in E. now subst b.
  - rewrite like_percent_step, orb_true_iff, IH. split.
    + intros [L | (a & b & E & L)].
      * exists "", (String c t). auto.
      * exists (String c a), b. simpl. now rewrite E.
    + intros (a & b & E & L). destruct a as [| c' a]; simpl in E.
      * subst b. now left.
      * injection E as <- E. right. eauto.
Qed.







(** X3.  The search text is a pattern, not a literal: [%] alone finds every
    record with a name, description or place that is not NULL, and [_] alone
    every record where one of them begins with a character other than
    NUL. *)
Theorem search_wildcards_are_patterns (it : item) :
  (matches_search "%" it = true
   <-> name it <> None \/ description it <> None \/ place it <> None)
  /\ (matches_search "_" it = true
      <-> exists c t, c <> Ascii.zero
                      /\ (name it = Some (String c t)
                          \/ description it = Some (String c t)
                          \/ place it = Some (String c t))).
Proof.
  assert (forall t, pattern_compare "%" t = true) as Hany.
  { intros t. apply like_percent. exists t, "". split; [| reflexivity].
    induction t as [| c t IH]; simpl; [reflexivity | now rewrite <- IH]. }
  assert (forall t, sql_like "%%%" t = true) as Hall.
  { intros t. unfold sql_like. change (c_string "%%%") with "%%%".
    apply like_percent. exists "", (c_string t). split; [reflexivity |].
    apply like_percent. exists "", (c_string t).
    split; [reflexivity | apply Hany]. }
  assert (forall t, sql_like "%_%" t = true
                    <-> exists c t', c <> Ascii.zero /\ t = String c t')
    as Hone.
  { intros t. unfold sql_like. change (c_string "%_%") with "%_%".
    rewrite like_percent. split.
    - intros (a & b & E & L). destruct t as [| c t']; simpl in E.
      + destruct a, b; simpl in *; discriminate.
      + destruct (Ascii.eqb c Ascii.zero) eqn:Ec.
        * destruct a, b; simpl in *; discriminate.
        * exists c, t'. split; [| reflexivity].
          intros ->. discriminate.
    - intros (c & t' & Hc & ->). cbn [c_string].
      apply Ascii.eqb_neq in Hc. rewrite Hc.
      exists "", (String c (c_string t')). split; [reflexivity |].
      change (pattern_compare "_%" (String c (c_string t')))
        with (pattern_compare "%" (c_string t')).
      apply Hany. }
  unfold matches_search, column_like.
  change ("%" ++ "%" ++ "%")%string with "%%%".
  change ("%" ++ "_" ++ "%")%string with "%_%".
  split; rewrite !orb_true_iff.
  - destruct (name it), (description it), (place it); rewrite ?Hall;
      intuition congruence.
  - split.
    + intros [[L | L] | L];
        [destruct (name it) as [t |] | destruct (description it) as [t |]
         | destruct (place it) as [t |]]; try discriminate;
        apply Hone in L as (c & t' & Hc & ->); eauto 8.
    + intros (c & t & Hc & [E | [E | E]]); rewrite E;
        [left; left | left; right | right]; apply Hone; eauto.
Qed.


(** ** Adding records *)

Lemma has_id_in (d : DB) (i : string) :
  has_id d i = true <-> In i (map id d).
Proof.
  unfold has_id. rewrite existsb_exists. split.
  - intros (r & Hr & E). apply String.eqb_eq in E. subst i. now apply in_map.
  - intros Hi. apply in_map_iff in Hi as (r & <- & Hr).
    exists r. split; [exact Hr | apply String.eqb_refl].
Qed.

Lemma get_items_typed (d : DB) (t : string) :
  t <> "" ->
  get_items d (Some t) None = filter (fun r => String.eqb (type r) t) d.
Proof. destruct t; [congruence | reflexivity]. Qed.

(** X4.  A record that [add_item] accepts is the last one of its type from
    then on, and the records of every other type are what they were. *)
Theorem add_item_then_get_items (d d' : DB) (it : item) :
  add_item d it = inr d' ->
  type it <> "" ->
  get_items d' (Some (type it)) None
  = get_items d (Some (type it)) None ++ [it]
  /\ (forall t, t <> "" -> t <> type it ->
        get_items d' (Some t) None = get_items d (Some t) None).
Proof.
  unfold add_item. destruct (has_id d (id it)); [discriminate |].
  intros E Ht. injection E as <-. split.
  - rewrite !get_items_typed by exact Ht.
    rewrite filter_app. simpl. now rewrite String.eqb_refl.
  - intros t Hne Hd. rewrite !get_items_typed by exact Hne.
    rewrite filter_app. simpl.
    apply not_eq_sym, String.eqb_neq in Hd. rewrite Hd. apply app_nil_r.
Qed.

(** X5.  Identifiers stay unique: [add_item] raises [IntegrityError] exactly
    when the identifier is already in the table, and otherwise appends the
    record to a table whose identifiers are again all different. *)
Theorem add_item_keeps_ids_unique (d : DB) (it : item) :
  NoDup (map id d) ->
  match add_item d it with
  | inl _ => In (id it) (map id d)
  | inr d' => ~ In (id it) (map id d) /\ d' = d ++ [it] /\ NoDup (map id d')
  end.
Proof.
  intros Hd. unfold add_item. destruct (has_id d (id it)) eqn:E.
  - now apply has_id_in.
  - assert (~ In (id it) (map id d)) as Hn.
    { intros Hi. apply has_id_in in Hi. congruence. }
    repeat split; [exact Hn |].
    rewrite map_app. simpl.
    apply NoDup_app; [exact Hd | repeat constructor; intros [] |].
    intros x Hx [<- | []]. contradiction.
Qed.

Lemma add_item_then_get_items_witness :
  get_items (sample_db ++ [lost_umbrella]) (Some "lost") None
  = get_items sample_db (Some "lost") None ++ [lost_umbrella].
Proof.
  apply (add_item_then_get_items sample_db _ lost_umbrella).
  - reflexivity.
  - discriminate.
Defined.

Lemma add_item_keeps_ids_unique_witness :
  ~ In "q1" (map id sample_db)
  /\ sample_db ++ [lost_umbrella] = sample_db ++ [lost_umbrella]
  /\ NoDup (map id (sample_db ++ [lost_umbrella])).
Proof.
  apply (add_item_keeps_ids_unique sample_db lost_umbrella).
  repeat constructor; simpl; intuition discriminate.
Defined.

(** ** Administrator accounts *)

Section Accounts.

Context `{Hashlib}.

Lemma select_hash_app (t : admin_table) (u u' h : string) :
  select_hash (t ++ [(u, h)]) u'
  = match select_hash t u' with
    | Some x => Some x
    | None => if String.eqb u u' then Some h else None
    end.
Proof.
  induction t as [| [u0 h0] t IH]; simpl; [reflexivity |].
  destruct (String.eqb u0 u'); [reflexivity | exact IH].
Qed.

(** X6.  After [add_admin] has registered a new username, [verify_admin]
    accepts for it exactly the passwords that have the digest of the
    registered one, the registered password among them. *)
Theorem add_admin_then_verify (t : admin_table) (u p p' : string) :
  select_hash t u = None ->
  verify_admin (add_admin t u p) u p = true
  /\ (verify_admin (add_admin t u p) u p' = true
      <-> sha256_hexdigest p' = sha256_hexdigest p).
Proof.
  intros Hn. unfold verify_admin, add_admin, verify_hash, hash_password.
  rewrite Hn, select_hash_app, Hn, String.eqb_refl. split.
  - apply String.eqb_refl.
  - apply String.eqb_eq.
Qed.

(** X7.  [add_admin] never changes what [verify_admin] answers for a
    username that is already registered: a second registration of the same
    name does not replace the password, and registering another name leaves
    the account alone. *)
Theorem add_admin_keeps_accounts (t : admin_table) (u p u' p' : string) :
  select_hash t u' <> None ->
  verify_admin (add_admin t u p) u' p' = verify_admin t u' p'.
Proof.
  intros Hs. unfold verify_admin, add_admin.
  destruct (select_hash t u) eqn:Eu; [reflexivity |].
  rewrite select_hash_app.
  destruct (select_hash t u'); [reflexivity | congruence].
Qed.

(** X8.  Opening the database creates the account [admin] / [admin123]
    when the admin table is missing or empty, and only then: opening it again
    changes nothing, and a table that has a row is left as it is. *)
Theorem create_admin_default_account (existing : option admin_table)
    (r : string * string) (t : admin_table) :
  create_admin (Some (create_admin existing)) = create_admin existing
  /\ verify_admin (create_admin None) "admin" "admin123" = true
  /\ verify_admin (create_admin (Some [])) "admin" "admin123" = true
  /\ create_admin (Some (r :: t)) = r :: t.
Proof.
  repeat split.
  - unfold create_admin.
    destruct existing as [[| r' t'] |]; reflexivity.
  - unfold create_admin, verify_admin, add_admin, verify_hash, hash_password.
    simpl. apply String.eqb_refl.
  - unfold create_admin, verify_admin, add_admin, verify_hash, hash_password.
    simpl. apply String.eqb_refl.
Qed.

End Accounts.

Lemma add_admin_then_verify_witness :
  verify_admin (add_admin [] "admin" "admin123") "admin" "admin123" = true
  /\ (verify_admin (add_admin [] "admin" "admin123") "admin" "admin" = true
      <-> sha256_hexdigest "admin" = sha256_hexdigest "admin123").
Proof.
  apply (add_admin_then_verify [] "admin" "admin123" "admin").
  reflexivity.
Defined.

Lemma add_admin_keeps_accounts_witness :
  verify_admin (add_admin (create_admin None) "admin" "letmein")
    "admin" "letmein"
  = verify_admin (create_admin None) "admin" "letmein".
Proof.
  apply (add_admin_keeps_accounts (create_admin None) "admin" "letmein").
  discriminate.
Defined.

(** The stored digest of the default password, as [hashlib] computes it. *)
Example default_admin_row :
  create_admin None
  = [("admin",
      "240be518fabd2724ddb6f04eeb1da5967448d7e831c08c8fa822809f74c720a9")].
Proof. vm_compute. reflexivity. Qed.

(** ** [strip] and the login dialog *)

Lemma list_of_append (a b : string) :
  list_ascii_of_string (a ++ b)
  = list_ascii_of_string a ++ list_ascii_of_string b.
Proof. induction a as [| c a IH]; simpl; [reflexivity | now rewrite IH]. Qed.

Lemma string_of_app (l1 l2 : list ascii) :
  string_of_list_ascii (l1 ++ l2)
  = (string_of_list_ascii l1 ++ string_of_list_ascii l2)%string.
Proof. induction l1 as [| c l IH]; simpl; [reflexivity | now rewrite IH]. Qed.

Lemma reverse_app (a b : string) :
  Strip.reverse (a ++ b) = (Strip.reverse b ++ Strip.reverse a)%string.
Proof.
  unfold Strip.reverse. now rewrite list_of_append, rev_app_distr, string_of_app.
Qed.

Lemma all_chars_app (p : ascii -> bool) (a b : string) :
  Str.all_chars p (a ++ b) = Str.all_chars p a && Str.all_chars p b.
Proof.
  induction a as [| c a IH]; simpl; [reflexivity |].
  now rewrite IH, andb_assoc.
Qed.

Lemma all_chars_forallb (p : ascii -> bool) (s : string) :
  Str.all_chars p s = forallb p (list_ascii_of_string s).
Proof. induction s as [| c s IH]; simpl; [reflexivity | now rewrite IH]. Qed.

Lemma all_chars_reverse (p : ascii -> bool) (s : string) :
  Str.all_chars p (Strip.reverse s) = Str.all_chars p s.
Proof.
  unfold Strip.reverse.
  rewrite !all_chars_forallb, list_ascii_of_string_of_list_ascii.
  induction (list_ascii_of_string s) as [| c l IH]; [reflexivity |].
  simpl. rewrite forallb_app, IH. simpl.
  rewrite andb_true_r. apply andb_comm.
Qed.

Lemma lstrip_spaces (w s : string) :
  Str.all_chars Str.is_space w = true ->
  Strip.lstrip (w ++ s) = Strip.lstrip s.
Proof.
  induction w as [| c w IH]; simpl; [reflexivity |].
  intros E. apply andb_prop in E as [Ec Ew]. rewrite Ec. now apply IH.
Qed.

Lemma lstrip_empty (s : string) :
  Strip.lstrip s = "" <-> Str.all_chars Str.is_space s = true.
Proof.
  induction s as [| c s IH]; simpl; [tauto |].
  destruct (Str.is_space c); simpl; [exact IH |].
  split; discriminate.
Qed.

Lemma lstrip_app (s w : string) :
  Strip.lstrip s <> "" -> Strip.lstrip (s ++ w) = (Strip.lstrip s ++ w)%string.
Proof.
  induction s as [| c s IH]; simpl; [congruence |].
  destruct (Str.is_space c); [exact IH | reflexivity].
Qed.

Lemma rstrip_spaces (s w : string) :
  Str.all_chars Str.is_space w = true ->
  Strip.rstrip (s ++ w) = Strip.rstrip s.
Proof.
  intros E. unfold Strip.rstrip.
  rewrite reverse_app, lstrip_spaces; [reflexivity |].
  now rewrite all_chars_reverse.
Qed.

(** Whitespace around a string does not survive [strip], and a string of
    whitespace is stripped to nothing. *)
Lemma strip_padding (w1 s w2 : string) :
  Str.all_chars Str.is_space w1 = true ->
  Str.all_chars Str.is_space w2 = true ->
  Strip.strip (w1 ++ s ++ w2) = Strip.strip s.
Proof.
  intros E1 E2. unfold Strip.strip. rewrite lstrip_spaces by exact E1.
  destruct (Strip.lstrip s) eqn:El.
  - apply lstrip_empty in El.
    assert (Strip.lstrip (s ++ w2) = "") as ->; [| reflexivity].
    apply lstrip_empty. now rewrite all_chars_app, El, E2.
  - rewrite lstrip_app by congruence. rewrite El.
    now apply rstrip_spaces.
Qed.

Lemma strip_spaces (w : string) :
  Str.all_chars Str.is_space w = true -> Strip.strip w = "".
Proof.
  intros E. unfold Strip.strip.
  apply lstrip_empty in E. rewrite E. reflexivity.
Qed.

(** X9.  The login dialog strips both fields before checking them:
    whitespace typed before or after the username or the password does not
    change the verdict. *)
Theorem try_login_ignores_padding `{Hashlib} (t : admin_table)
    (user pwd w1 w2 w3 w4 : string) :
  Str.all_chars Str.is_space (w1 ++ w2 ++ w3 ++ w4) = true ->
  try_login t (w1 ++ user ++ w2) (w3 ++ pwd ++ w4) = try_login t user pwd.
Proof.
  rewrite !all_chars_app. intros E.
  apply andb_prop in E as [E1 E]. apply andb_prop in E as [E2 E].
  apply andb_prop in E as [E3 E4].
  unfold try_login. now rewrite !strip_padding.
Qed.

Lemma try_login_ignores_padding_witness :
  try_login (create_admin None) (" " ++ "admin" ++ "  ") ("" ++ "admin123" ++ " ")
  = try_login (create_admin None) "admin" "admin123".
Proof.
  apply (try_login_ignores_padding (create_admin None)
           "admin" "admin123" " " "  " "" " ").
  reflexivity.
Defined.

(** ** Settings *)

Lemma dict_get_set_same (k : string) (v : json) (d : dict) :
  dict_get k (dict_set k v d) = Some v.
Proof.
  induction d as [| [k' v'] d IH]; simpl.
  - now rewrite String.eqb_refl.
  - destruct (String.eqb k' k) eqn:E; simpl; rewrite E; [reflexivity | exact IH].
Qed.

Lemma dict_get_set_other (k k' : string) (v : json) (d : dict) :
  k <> k' -> dict_get k' (dict_set k v d) = dict_get k' d.
Proof.
  intros Hne. induction d as [| [k0 v0] d IH]; simpl.
  - apply String.eqb_neq in Hne. now rewrite Hne.
  - destruct (String.eqb k0 k) eqn:E; simpl.
    + apply String.eqb_eq in E. subst k0.
      apply String.eqb_neq in Hne. now rewrite Hne.
    + now rewrite IH.
Qed.

Lemma dict_get_none (k : string) (d : dict) :
  ~ In k (map fst d) -> dict_get k d = None.
Proof.
  induction d as [| [k' v'] d IH]; simpl; [reflexivity |].
  intros Hn. destruct (String.eqb k' k) eqn:E.
  - apply String.eqb_eq in E. tauto.
  - apply IH. tauto.
Qed.

Lemma dict_get_in (k : string) (v : json) (d : dict) :
  dict_get k d = Some v -> In (k, v) d.
Proof.
  induction d as [| [k' v'] d IH]; simpl; [discriminate |].
  destruct (String.eqb k' k) eqn:E.
  - apply String.eqb_eq in E. intros [= ->]. left. now subst.
  - auto.
Qed.

(** [update] lets the other dictionary win, key by key. *)
Lemma dict_update_get (d other : dict) (f : string) :
  distinct_keys other ->
  dict_get f (dict_update d other)
  = match dict_get f other with
    | Some v => Some v
    | None => dict_get f d
    end.
Proof.
  unfold dict_update, distinct_keys. revert d.
  induction other as [| [k v] other IH]; intros d Hd; simpl; [reflexivity |].
  inversion Hd as [| ? ? Hk Hd']; subst.
  rewrite IH by exact Hd'.
  destruct (String.eqb k f) eqn:E.
  - apply String.eqb_eq in E. subst f.
    rewrite (dict_get_none k other Hk). apply dict_get_set_same.
  - apply String.eqb_neq in E.
    destruct (dict_get f other); [reflexivity |].
    now apply dict_get_set_other.
Qed.

Lemma default_sections_are_dicts (k : string) (x : json) :
  dict_get k default_settings = Some x -> exists sec, x = JDict sec.
Proof.
  unfold default_settings. cbn [dict_get].
  destruct (String.eqb "smtp" k); [intros [= <-]; eauto |].
  destruct (String.eqb "twilio" k); [intros [= <-]; eauto |].
  destruct (String.eqb "ui" k); [intros [= <-]; eauto | discriminate].
Qed.

(** The merge, read key by key, when no [update] can meet a value that is
    not a dictionary. *)
Lemma merge_items_get (loaded : dict) :
  forall data : dict,
    distinct_keys loaded ->
    (forall k o x, In (k, JDict o) loaded -> dict_get k data = Some x ->
                   exists sec, x = JDict sec) ->
    forall k,
      dict_get k (merge_items data loaded)
      = match dict_get k loaded with
        | None => dict_get k data
        | Some (JDict o) =>
            match dict_get k data with
            | Some (JDict sec) => Some (JDict (dict_update sec o))
            | _ => Some (JDict o)
            end
        | Some v => Some v
        end.
Proof.
  unfold distinct_keys.
  induction loaded as [| [k0 v0] loaded IH]; intros data Hd Hsafe k;
    [reflexivity |].
  inversion Hd as [| ? ? Hk Hd']; subst.
  assert (exists data',
             merge_item data (k0, v0) = Some data'
             /\ (forall k', k0 <> k' -> dict_get k' data' = dict_get k' data)
             /\ dict_get k0 data'
                = match v0 with
                  | JDict o =>
                      match dict_get k0 data with
                      | Some (JDict sec) => Some (JDict (dict_update sec o))
                      | _ => Some (JDict o)
                      end
                  | _ => Some v0
                  end) as (data' & Em & Hother & Hsame).
  { unfold merge_item.
    destruct v0;
      try (eexists; split; [reflexivity |]; split;
           [intros k' Hne; now apply dict_get_set_other
           | apply dict_get_set_same]).
    destruct (dict_get k0 data) as [x |] eqn:Eg.
    - destruct (Hsafe k0 d x) as [sec ->]; [now left | exact Eg |].
      eexists; split; [reflexivity |]; split;
        [intros k' Hne; now apply dict_get_set_other
        | apply dict_get_set_same].
    - eexists; split; [reflexivity |]; split;
        [intros k' Hne; now apply dict_get_set_other
        | apply dict_get_set_same]. }
  cbn [merge_items]. rewrite Em.
  rewrite IH; [| exact Hd' |].
  - cbn [dict_get]. destruct (String.eqb k0 k) eqn:E.
    + apply String.eqb_eq in E. subst k.
      rewrite (dict_get_none k0 loaded Hk). exact Hsame.
    + apply String.eqb_neq in E. rewrite (Hother k E). reflexivity.
  - intros k' o x Hin Hg. apply (Hsafe k' o x); [now right |].
    rewrite <- Hother; [exact Hg |].
    intros <-. apply Hk. apply (in_map fst) in Hin. exact Hin.
Qed.

Lemma init_get (loaded : dict) (k : string) :
  distinct_keys loaded ->
  dict_get k (Settings_init (Parsed (JDict loaded)))
  = match dict_get k loaded with
    | None => dict_get k default_settings
    | Some (JDict o) =>
        match dict_get k default_settings with
        | Some (JDict sec) => Some (JDict (dict_update sec o))
        | _ => Some (JDict o)
        end
    | Some v => Some v
    end.
Proof.
  intros Hd. unfold Settings_init, load. apply merge_items_get; [exact Hd |].
  intros k' o x _. apply default_sections_are_dicts.
Qed.

(** X10.  Loading a settings file never loses a default: when the file
    gives a section as an object, each setting of that section has the file's
    value if the file has one and the default otherwise; a section the file
    does not mention keeps its defaults. *)
Theorem load_keeps_defaults (loaded : dict) (section field : string)
    (dv : json) :
  distinct_keys loaded ->
  (forall o, dict_get section loaded = Some (JDict o) -> distinct_keys o) ->
  (forall v, dict_get section loaded = Some v -> exists o, v = JDict o) ->
  setting default_settings section field = Some dv ->
  setting (Settings_init (Parsed (JDict loaded))) section field
  = Some (match setting loaded section field with
          | Some v => v
          | None => dv
          end).
Proof.
  intros Hd Hnest Hobj Hdef. unfold setting in *.
  rewrite init_get by exact Hd.
  destruct (dict_get section default_settings) as [x |] eqn:Es;
    [| discriminate].
  destruct (default_sections_are_dicts _ _ Es) as [sec ->].
  destruct (dict_get section loaded) as [v |] eqn:El.
  - destruct (Hobj v eq_refl) as [o ->].
    rewrite dict_update_get by now apply Hnest.
    destruct (dict_get field o); [reflexivity | exact Hdef].
  - exact Hdef.
Qed.

(** X11.  What the file gives under a key that the defaults do not have, or
    gives as something other than an object, is taken as it is; in the
    second case a default section of that name is gone, and none of its
    settings can be looked up any more. *)
Theorem load_takes_other_values (loaded : dict) (k : string) (v : json) :
  distinct_keys loaded ->
  dict_get k loaded = Some v ->
  dict_mem k default_settings = false \/ (forall o, v <> JDict o) ->
  dict_get k (Settings_init (Parsed (JDict loaded))) = Some v
  /\ ((forall o, v <> JDict o) ->
      forall field,
        setting (Settings_init (Parsed (JDict loaded))) k field = None).
Proof.
  intros Hd Hv Hcase.
  assert (dict_get k (Settings_init (Parsed (JDict loaded))) = Some v) as E.
  { rewrite init_get, Hv by exact Hd.
    destruct Hcase as [Hm | Hn].
    - unfold dict_mem in Hm.
      destruct (dict_get k default_settings); [discriminate |].
      now destruct v.
    - destruct v; try reflexivity. now destruct (Hn d). }
  split; [exact E |].
  intros Hn field. unfold setting. rewrite E.
  destruct v; try reflexivity. now destruct (Hn d).
Qed.

(** X12.  Saving and starting again restores the settings: if the saved
    data still has every default setting, each setting read after
    [Settings()] has loaded the saved file is the one that was saved. *)
Theorem save_then_init_restores (data : dict) (section field : string) :
  distinct_keys data ->
  (forall k o, dict_get k data = Some (JDict o) -> distinct_keys o) ->
  covers_defaults data ->
  setting (Settings_init (save data)) section field
  = setting data section field.
Proof.
  intros Hd Hnest Hcov. unfold save, setting.
  rewrite init_get by exact Hd.
  destruct (dict_get section data) as [v |] eqn:Ed.
  - destruct v; try reflexivity.
    destruct (dict_get section default_settings) as [x |] eqn:Es;
      [| reflexivity].
    destruct (default_sections_are_dicts _ _ Es) as [sec ->].
    rewrite dict_update_get by now apply (Hnest section).
    destruct (dict_get field d) eqn:Ef; [reflexivity |].
    destruct (dict_get field sec) as [dv |] eqn:Edv; [| reflexivity].
    exfalso. apply (Hcov section field dv).
    + unfold setting. now rewrite Es.
    + unfold setting. now rewrite Ed.
  - destruct (dict_get section default_settings) as [x |] eqn:Es;
      [| reflexivity].
    destruct (default_sections_are_dicts _ _ Es) as [sec ->].
    destruct (dict_get field sec) as [dv |] eqn:Edv; [| reflexivity].
    exfalso. apply (Hcov section field dv).
    + unfold setting. now rewrite Es.
    + unfold setting. now rewrite Ed.
Qed.

Lemma load_keeps_defaults_witness :
  setting
    (Settings_init
       (Parsed (JDict [("smtp", JDict [("host", JStr "mail.pcte.edu");
                                       ("enabled", JBool true)])])))
    "smtp" "port"
  = Some (JInt 587).
Proof.
  apply (load_keeps_defaults
           [("smtp", JDict [("host", JStr "mail.pcte.edu");
                            ("enabled", JBool true)])]
           "smtp" "port" (JInt 587)).
  - repeat constructor; simpl; intuition discriminate.
  - intros o [= <-]. repeat constructor; simpl; intuition discriminate.
  - intros v [= <-]. eauto.
  - reflexivity.
Defined.

Lemma load_takes_other_values_witness :
  dict_get "smtp"
    (Settings_init (Parsed (JDict [("smtp", JStr "off"); ("lang", JStr "en")])))
  = Some (JStr "off")
  /\ ((forall o, JStr "off" <> JDict o) ->
      forall field,
        setting
          (Settings_init
             (Parsed (JDict [("smtp", JStr "off"); ("lang", JStr "en")])))
          "smtp" field = None).
Proof.
  apply (load_takes_other_values [("smtp", JStr "off"); ("lang", JStr "en")]
           "smtp" (JStr "off")).
  - repeat constructor; simpl; intuition discriminate.
  - reflexivity.
  - right. intros o. discriminate.
Defined.

Lemma save_then_init_restores_witness :
  let data :=
    [ ("smtp", JDict [ ("enabled", JBool true); ("host", JStr "mail.pcte.edu");
                       ("port", JInt 25); ("username", JStr "lostfound");
                       ("password", JStr "secret"); ("from_email", JStr "") ]);
      ("twilio", JDict [ ("enabled", JBool false); ("account_sid", JStr "");
                         ("auth_token", JStr ""); ("from_number", JStr "") ]);
      ("ui", JDict [ ("theme", JStr "darkly"); ("dark", JBool true) ]) ] in
  setting (Settings_init (save data)) "smtp" "port" = Some (JInt 25).
Proof.
  intros data.
  rewrite (save_then_init_restores data "smtp" "port").
  - reflexivity.
  - repeat constructor; simpl; intuition discriminate.
  - intros k o. unfold data. cbn [dict_get].
    destruct (String.eqb "smtp" k);
      [intros [= <-]; repeat constructor; simpl; intuition discriminate |].
    destruct (String.eqb "twilio" k);
      [intros [= <-]; repeat constructor; simpl; intuition discriminate |].
    destruct (String.eqb "ui" k);
      [intros [= <-]; repeat constructor; simpl; intuition discriminate
      | discriminate].
  - intros section field v. unfold setting, data, default_settings.
    cbn [dict_get].
    destruct (String.eqb "smtp" section).
    { cbn [dict_get].
      repeat match goal with
             | |- context [String.eqb ?a field] =>
                 destruct (String.eqb a field); [discriminate |]
             end. discriminate. }
    destruct (String.eqb "twilio" section).
    { cbn [dict_get].
      repeat match goal with
             | |- context [String.eqb ?a field] =>
                 destruct (String.eqb a field); [discriminate |]
             end. discriminate. }
    destruct (String.eqb "ui" section); [| discriminate].
    cbn [dict_get].
    repeat match goal with
           | |- context [String.eqb ?a field] =>
               destruct (String.eqb a field); [discriminate |]
           end. discriminate.
Defined.

(** ** More on the matcher *)

Lemma insert_term_not_nil (t : string) (l : list string) :
  Sklearn.insert_term t l <> [].
Proof.
  destruct l as [| x l]; simpl; [discriminate |].
  destruct (String.compare t x); discriminate.
Qed.

(** [fit] raises exactly when no document yields a term, and then with the
    one error of an empty vocabulary. *)
Lemma fit_raises_iff (texts : list string) (e : exn) :
  Sklearn.fit texts = Raises e
  <-> Forall (fun d => Sklearn.analyzer d = []) texts
      /\ e = ValueError
           "empty vocabulary; perhaps the documents only contain stop words".
Proof.
  split.
  - unfold Sklearn.fit, Sklearn.build_vocabulary.
    destruct (List.concat (map Sklearn.analyzer texts)) as [| t l] eqn:Ec.
    + simpl. intros [= <-]. split; [| reflexivity].
      apply Forall_forall. intros d Hd.
      destruct (Sklearn.analyzer d) as [| x a] eqn:Ea; [reflexivity |].
      assert (In x (List.concat (map Sklearn.analyzer texts))) as Hx.
      { apply in_concat. exists (Sklearn.analyzer d). split.
        - now apply in_map.
        - rewrite Ea. now left. }
      rewrite Ec in Hx. contradiction.
    + simpl. destruct (Sklearn.insert_term t _) eqn:Ei; [| discriminate].
      now apply insert_term_not_nil in Ei.
  - intros [Hall ->]. now apply fit_raises_without_terms.
Qed.

Section MoreMatching.

Context `{NLTK}.

(** X13.  [find_matches] raises in one situation only: the store has
    records of the opposite type, and none of their normalized documents
    contains a word of two or more characters.  The exception is then the
    [ValueError] of an empty vocabulary. *)
Theorem find_matches_raises_iff (it : item) (k : Z) (m : Matcher) (e : exn) :
  let items := get_items (db m) (Some (opposite_of it)) None in
  snd (find_matches it k m) = Raises e
  <-> items <> []
      /\ Forall (fun r => Sklearn.analyzer
                            (preprocess (Some (document_text r))) = [])
                items
      /\ e = ValueError
           "empty vocabulary; perhaps the documents only contain stop words".
Proof.
  intros items.
  destruct (find_matches_cases it k m)
    as [[E R] | [[N (e' & Ef & R)] | [N (v & heap & results & Ef & _ & R)]]];
    fold items in E || fold items in N; rewrite R.
  - split; [discriminate |]. intros [Hn _]. contradiction.
  - apply fit_raises_iff in Ef as [Hall ->].
    rewrite Forall_map in Hall. split.
    + intros [= <-]. auto.
    + intros (_ & _ & ->). reflexivity.
  - split; [discriminate |]. intros (_ & Hall & ->).
    assert (Sklearn.fit
              (map (fun r => preprocess (Some (document_text r))) items)
            = Raises (ValueError
                "empty vocabulary; perhaps the documents only contain stop words"))
      as Ef'.
    { apply fit_raises_iff. rewrite Forall_map. split; [exact Hall |].
      reflexivity. }
    fold items in Ef. congruence.
Qed.

End MoreMatching.

(** ** The join of ranked identifiers with their records *)

Lemma first_with_id_spec (cid : string) (rows : list row) (i0 i : nat) :
  first_with_id cid rows i0 = Some i ->
  exists j it o, i = i0 + j /\ nth_error rows j = Some (it, o) /\ id it = cid.
Proof.
  revert i0. induction rows as [| [it o] rows IH]; intros i0; simpl.
  - discriminate.
  - destruct (String.eqb (id it) cid) eqn:E.
    + intros [= <-]. apply String.eqb_eq in E.
      exists 0, it, o. rewrite Nat.add_0_r. auto.
    + intros Hf. apply IH in Hf as (j & it' & o' & -> & Hn & Hi).
      exists (S j), it', o'. split; [lia | auto].
Qed.

(** With distinct identifiers in the ranking, every entry gets the row of
    its own identifier and that row keeps the entry's score. *)
Lemma attach_scores_join (top : list (string * float)) :
  forall (heap : list row) (results : list nat) heap' results',
    attach_scores top heap results = (heap', results') ->
    NoDup (map fst top) ->
    (forall cid s, In (cid, s) top ->
                   In cid (map (fun r => id (fst r)) heap)) ->
    (forall i it o, In i results -> nth_error heap i = Some (it, o) ->
                    ~ In (id it) (map fst top)) ->
    exists new,
      results' = results ++ new
      /\ Forall2 (fun i cs => exists it,
                    nth_error heap' i = Some (it, Some (snd cs))
                    /\ id it = fst cs) new top
      /\ (forall i, In i results -> nth_error heap' i = nth_error heap i).
Proof.
  induction top as [| [cid s] top IH];
    intros heap results heap' results' E Hnd Hin Hdone; simpl in E.
  - injection E as <- <-. exists []. rewrite app_nil_r. repeat split; auto.
  - inversion Hnd as [| ? ? Hcid Hnd']; subst.
    destruct (first_with_id_found cid heap 0) as (j & it0 & o0 & Hf & _).
    { apply (Hin cid s). now left. }
    simpl in Hf. rewrite Hf in E.
    destruct (first_with_id_spec _ _ _ _ Hf) as (j' & it & o & Ej & Hn & Hid).
    simpl in Ej. subst j'.
    apply IH in E; [| exact Hnd' | |].
    + destruct E as (new & -> & Hnew & Hkeep).
      exists (j :: new). rewrite <- app_assoc. split; [reflexivity |].
      split.
      * constructor; [| exact Hnew].
        exists it. rewrite Hkeep by (apply in_or_app; right; now left).
        rewrite set_score_nth, Nat.eqb_refl, Hn. auto.
      * intros i Hi. rewrite Hkeep by (apply in_or_app; now left).
        rewrite set_score_nth. destruct (i =? j) eqn:Eij; [| reflexivity].
        apply Nat.eqb_eq in Eij. subst i. exfalso.
        apply (Hdone j it o Hi Hn). left. auto.
    + intros cid' s' H'.
      rewrite <- (map_map fst id (set_score j s heap)).
      rewrite set_score_fst, map_map. apply (Hin cid' s'). now right.
    + intros i it' o' Hi Hn'. rewrite set_score_nth in Hn'.
      apply in_app_or in Hi. destruct (i =? j) eqn:Eij.
      * apply Nat.eqb_eq in Eij. subst i. rewrite Hn in Hn'.
        simpl in Hn'. injection Hn' as <- _. simpl in Hcid. now rewrite Hid.
      * destruct Hi as [Hi | [Hi | []]].
        -- intros Hc. apply (Hdone i it' o' Hi Hn'). now right.
        -- subst i. now rewrite Nat.eqb_refl in Eij.
Qed.

Lemma deref_join (heap : list row) (new : list nat)
    (top : list (string * float)) :
  Forall2 (fun i cs => exists it,
             nth_error heap i = Some (it, Some (snd cs)) /\ id it = fst cs)
          new top ->
  Forall2 (fun r cs => id (fst r) = fst cs /\ snd r = Some (snd cs))
          (deref heap new) top.
Proof.
  induction 1 as [| i cs new top (it & Hn & Hi) _ IH]; [constructor |].
  unfold deref in *. simpl. rewrite Hn. simpl. constructor; auto.
Qed.

Lemma NoDup_filter_ids (p : item -> bool) (d : DB) :
  NoDup (map id d) -> NoDup (map id (filter p d)).
Proof.
  induction d as [| r d IH]; simpl; [auto |].
  intros Hd. inversion Hd as [| ? ? Hr Hd']; subst.
  destruct (p r); simpl; [| auto].
  constructor; [| auto].
  intros Hi. apply Hr. apply in_map_iff in Hi as (x & E & Hx).
  apply filter_In in Hx as [Hx _]. rewrite <- E. now apply in_map.
Qed.

Lemma NoDup_firstn {A : Type} (n : nat) (l : list A) :
  NoDup l -> NoDup (firstn n l).
Proof.
  intros Hl. rewrite <- (firstn_skipn n l) in Hl.
  now apply NoDup_app_remove_r in Hl.
Qed.

Lemma NoDup_combine_fst {A B : Type} (a : list A) (b : list B) :
  NoDup a -> NoDup (map fst (combine a b)).
Proof.
  revert b. induction a as [| x a IH]; intros b Ha; [constructor |].
  destruct b as [| y b]; [constructor |].
  inversion Ha as [| ? ? Hx Ha']; subst. simpl. constructor; [| auto].
  intros Hi. apply Hx. apply in_map_iff in Hi as ([x' y'] & <- & Hc).
  simpl. eapply in_combine_l. exact Hc.
Qed.

Lemma top_ids_distinct {score : Type} (ltb : score -> score -> bool)
    (ids : list string) (sims : list score) (k : Z) :
  NoDup ids -> NoDup (map fst (Py.slice_to k (ranked ltb ids sims))).
Proof.
  intros Hd.
  assert (NoDup (map fst (ranked ltb ids sims))) as Hr.
  { unfold ranked.
    eapply Permutation_NoDup;
      [apply Permutation_map, Permutation_sym, sorted_perm |].
    now apply NoDup_combine_fst. }
  unfold Py.slice_to. destruct (0 <=? k)%Z;
    rewrite <- firstn_map; now apply NoDup_firstn.
Qed.

Lemma sorted_firstn {A : Type} (R : A -> A -> Prop) (n : nat) (l : list A) :
  StronglySorted R l -> StronglySorted R (firstn n l).
Proof.
  revert n. induction l as [| x l IH]; intros n Hs.
  - now destruct n.
  - destruct n; simpl; [constructor |].
    inversion Hs as [| ? ? Hs' Hx]; subst. constructor; [auto |].
    apply Forall_forall. intros y Hy. rewrite Forall_forall in Hx.
    apply Hx. eapply firstn_in. exact Hy.
Qed.

Lemma sorted_transfer {A B : Type} (R : B -> B -> Prop) (Q : A -> A -> Prop)
    (P : A -> B -> Prop) (l1 : list A) (l2 : list B) :
  (forall a b x y, P a x -> P b y -> R x y -> Q a b) ->
  Forall2 P l1 l2 -> StronglySorted R l2 -> StronglySorted Q l1.
Proof.
  intros Hq Hf. induction Hf as [| a x l1 l2 Hax Hf IH]; intros Hs.
  - constructor.
  - inversion Hs as [| ? ? Hs' Hx]; subst. constructor; [auto |].
    clear IH Hs Hs'. induction Hf as [| b y l1 l2 Hby Hf IH]; constructor.
    + inversion Hx; subst. eapply Hq; eauto.
    + inversion Hx; subst. auto.
Qed.

Section Join.

Context `{NLTK}.

(** X14.  In a store whose identifiers are all different, the rows that
    [find_matches] returns are the first entries of the ranking, one row per
    entry and in the same order: each row has the identifier of its entry
    and carries that entry's score. *)
Theorem results_follow_ranking (it : item) (k : Z) (m : Matcher)
    (rows : list row) :
  NoDup (map id (db m)) ->
  snd (find_matches it k m) = Returns rows ->
  let items := get_items (db m) (Some (opposite_of it)) None in
  let texts := map (fun r => preprocess (Some (document_text r))) items in
  (items = [] /\ rows = [])
  \/ exists v,
       Sklearn.fit texts = Returns v
       /\ Forall2 (fun r cs => id (fst r) = fst cs /\ snd r = Some (snd cs))
            rows
            (Py.slice_to k
               (ranked PrimFloat.ltb (map id items)
                  (similarities v (preprocess (Some (document_text it)))
                     texts))).
Proof.
  intros Hd Hr items texts.
  destruct (find_matches_cases it k m)
    as [[E R] | [[_ (e & _ & R)] | [_ (v & heap & results & Ef & Ea & R)]]];
    rewrite R in Hr; try discriminate; injection Hr as <-.
  - left. auto.
  - right. exists v. split; [exact Ef |].
    apply attach_scores_join in Ea.
    + destruct Ea as (new & -> & Hnew & _). simpl. now apply deref_join.
    + apply top_ids_distinct. rewrite get_items_by_type.
      now apply NoDup_filter_ids.
    + intros cid s Hc. rewrite map_map. simpl.
      eapply top_ids_known. exact Hc.
    + intros i it' o [].
Qed.

(** X15.  With distinct identifiers, and scores that [<] orders weakly (no
    NaN among them), the rows come back in descending order of score: no row
    has a smaller score than a row after it. *)
Theorem results_in_descending_order (it : item) (k : Z) (m : Matcher)
    (rows : list row) :
  NoDup (map id (db m)) ->
  snd (find_matches it k m) = Returns rows ->
  (forall v,
     let items := get_items (db m) (Some (opposite_of it)) None in
     let texts := map (fun r => preprocess (Some (document_text r))) items in
     Sklearn.fit texts = Returns v ->
     weak_order_on PrimFloat.ltb
       (similarities v (preprocess (Some (document_text it))) texts)) ->
  StronglySorted
    (fun r1 r2 => exists s1 s2, snd r1 = Some s1 /\ snd r2 = Some s2
                                /\ PrimFloat.ltb s1 s2 = false) rows.
Proof.
  intros Hd Hr Hw.
  destruct (find_matches_cases it k m)
    as [[E R] | [[_ (e & _ & R)] | [_ (v & heap & results & Ef & Ea & R)]]];
    rewrite R in Hr; try discriminate; injection Hr as <-.
  - constructor.
  - apply attach_scores_join in Ea.
    + destruct Ea as (new & -> & Hnew & _). simpl.
      apply deref_join in Hnew.
      refine (sorted_transfer (not_below PrimFloat.ltb) _ _ _ _ _ Hnew _).
      * intros a b x y [_ Ha] [_ Hb] Hxy. exists (snd x), (snd y). auto.
      * assert (StronglySorted (not_below PrimFloat.ltb)
                  (ranked PrimFloat.ltb
                     (map id (get_items (db m) (Some (opposite_of it)) None))
                     (similarities v (preprocess (Some (document_text it)))
                        (map (fun r => preprocess (Some (document_text r)))
                           (get_items (db m) (Some (opposite_of it)) None)))))
          as Hs.
        { unfold ranked. apply sorted_sorted.
          eapply weak_order_incl; [apply zip_snd_incl | now apply Hw]. }
        unfold Py.slice_to. destruct (0 <=? k)%Z; now apply sorted_firstn.
    + apply top_ids_distinct. rewrite get_items_by_type.
      now apply NoDup_filter_ids.
    + intros cid s Hc. rewrite map_map. simpl.
      eapply top_ids_known. exact Hc.
    + intros i it' o [].
Qed.


(** X17.  The query enters the matching through two things only: whether
    its type is [lost], and the lowercased text of its name, description and
    place.  Its identifier, date, contact and image play no part, a missing
    field counts as an empty one, and upper and lower case are the same. *)
Theorem find_matches_reads_type_and_text (it1 it2 : item) (k : Z)
    (m : Matcher) :
  String.eqb (type it1) "lost" = String.eqb (type it2) "lost" ->
  Str.lower (document_text it1) = Str.lower (document_text it2) ->
  find_matches it1 k m = find_matches it2 k m.
Proof.
  intros Et El.
  assert (preprocess (Some (document_text it1))
          = preprocess (Some (document_text it2))) as Ep.
  { unfold preprocess. simpl Str.or_empty. rewrite El.
    destruct (document_text it1), (document_text it2); simpl in *;
      try discriminate; reflexivity. }
  unfold find_matches, opposite_of. rewrite Et, Ep. reflexivity.
Qed.

(** X18.  A record whose type is not the opposite of the query's has no
    influence on the result: adding it to the store leaves the outcome as it
    was.  In particular a record stored just before it is matched does not
    change its own matches. *)
Theorem own_type_records_do_not_matter (it r : item) (k : Z) (m : Matcher) :
  type r <> opposite_of it ->
  snd (find_matches it k (with_db m (db m ++ [r])))
  = snd (find_matches it k m).
Proof.
  intros Ht.
  assert (get_items (db m ++ [r]) (Some (opposite_of it)) None
          = get_items (db m) (Some (opposite_of it)) None) as Eg.
  { rewrite !get_items_by_type, filter_app. simpl.
    apply String.eqb_neq in Ht. rewrite Ht. apply app_nil_r. }
  unfold find_matches, build, bind, get_self, set_corpus, set_vectorizer,
    lift, ret, with_db.
  cbn [db vectorizer corpus_ids corpus_texts fst snd].
  rewrite Eg.
  destruct (List.length _ =? 0); cbn; [reflexivity |].
  destruct (Sklearn.fit _); cbn; [| reflexivity].
  rewrite Eg.
  destruct (attach_scores _ _ _); reflexivity.
Qed.

End Join.

Lemma sample_ids_distinct : NoDup (map id sample_db).
Proof. repeat constructor; simpl; intuition discriminate. Qed.

Lemma results_follow_ranking_witness :
  exists rows,
    snd (find_matches lost_umbrella 2 (Matcher_init sample_db)) = Returns rows
    /\ map (fun r => id (fst r)) rows = ["f1"; "f2"].
Proof.
  assert (exists rows,
            snd (find_matches lost_umbrella 2 (Matcher_init sample_db))
            = Returns rows) as [rows Hr]
    by (eexists; vm_compute; reflexivity).
  exists rows. split; [exact Hr |].
  destruct (results_follow_ranking lost_umbrella 2 (Matcher_init sample_db)
              rows sample_ids_distinct Hr) as [[E _] | (v & Ef & Hj)].
  - vm_compute in E. discriminate.
  - transitivity
      (map fst
         (Py.slice_to 2
            (ranked PrimFloat.ltb
               (map id (get_items (db (Matcher_init sample_db))
                          (Some (opposite_of lost_umbrella)) None))
               (similarities v
                  (preprocess (Some (document_text lost_umbrella)))
                  (map (fun r => preprocess (Some (document_text r)))
                     (get_items (db (Matcher_init sample_db))
                        (Some (opposite_of lost_umbrella)) None)))))).
    { clear Hr Ef. induction Hj as [| r cs l1 l2 [Hi _] _ IH]; [reflexivity |].
      simpl. now rewrite Hi, IH. }
    vm_compute in Ef. injection Ef as <-.
    vm_compute. reflexivity.
Defined.

Lemma results_in_descending_order_witness :
  exists rows,
    snd (find_matches lost_umbrella 5 (Matcher_init sample_db)) = Returns rows
    /\ StronglySorted
         (fun r1 r2 => exists s1 s2, snd r1 = Some s1 /\ snd r2 = Some s2
                                     /\ PrimFloat.ltb s1 s2 = false) rows.
Proof.
  assert (exists rows,
            snd (find_matches lost_umbrella 5 (Matcher_init sample_db))
            = Returns rows) as [rows Hr]
    by (eexists; vm_compute; reflexivity).
  exists rows. split; [exact Hr |].
  apply (results_in_descending_order lost_umbrella 5 (Matcher_init sample_db)
           rows sample_ids_distinct Hr).
  intros v items texts Ef. vm_compute in Ef. injection Ef as <-.
  vm_compute. split.
  - intros a b [<- | [<- | [<- | []]]] [<- | [<- | [<- | []]]];
      vm_compute; congruence.
  - intros a b c [<- | [<- | [<- | []]]] [<- | [<- | [<- | []]]]
      [<- | [<- | [<- | []]]]; vm_compute; congruence.
Defined.


Lemma find_matches_reads_type_and_text_witness :
  find_matches
    (sample "q7" "lost" (Some "UMBRELLA") (Some "") None) 5
    (Matcher_init sample_db)
  = find_matches lost_umbrella 5 (Matcher_init sample_db).
Proof.
  apply (find_matches_reads_type_and_text
           (sample "q7" "lost" (Some "UMBRELLA") (Some "") None)
           lost_umbrella 5 (Matcher_init sample_db));
    reflexivity.
Defined.

Lemma own_type_records_do_not_matter_witness :
  snd (find_matches lost_umbrella 5
         (with_db (Matcher_init sample_db) (sample_db ++ [lost_umbrella])))
  = snd (find_matches lost_umbrella 5 (Matcher_init sample_db)).
Proof.
  apply (own_type_records_do_not_matter lost_umbrella lost_umbrella 5
           (Matcher_init sample_db)).
  discriminate.
Defined.

(** ** The record list and the submission form *)

Lemma tree_values_listable (it : item) :
  listable it <-> exists line, tree_values it = Some line.
Proof.
  unfold listable, tree_values. split.
  - intros (Hn & Hp & Hc).
    destruct (name it), (place it), (contact it); try congruence. eauto.
  - intros [line E].
    destruct (name it), (place it), (contact it); try discriminate.
    repeat split; discriminate.
Qed.

Lemma fill_tree_spec (rows : list item) :
  forall tree : list tree_row,
    (Forall listable rows /\
     exists lines, fill_tree rows tree = (tree ++ lines, None)
                   /\ Forall2 (fun line it => tree_values it = Some line)
                        lines rows)
    \/ (~ Forall listable rows /\
        exists lines msg, fill_tree rows tree = (lines, Some (TypeError msg))).
Proof.
  induction rows as [| it rows IH]; intros tree.
  - left. split; [constructor |]. exists []. rewrite app_nil_r.
    split; [reflexivity | constructor].
  - cbn [fill_tree]. destruct (tree_values it) as [line |] eqn:E.
    + destruct (IH (tree ++ [line])) as [[Hl (lines & Ef & Hf)] | [Hn Hr]].
      * left. split.
        -- constructor; [apply tree_values_listable; eauto | exact Hl].
        -- exists (line :: lines). rewrite Ef, <- app_assoc.
           split; [reflexivity | now constructor].
      * right. split; [| exact Hr].
        intros Hall. inversion Hall; subst. contradiction.
    + right. split.
      * intros Hall. inversion Hall as [| ? ? Hit _]; subst.
        apply tree_values_listable in Hit as [line Hl]. congruence.
      * eauto.
Qed.


Lemma newline_is_space : Str.all_chars Str.is_space newline = true.
Proof. reflexivity. Qed.

Section Submission.

Context `{NLTK}.

(** X20.  A form whose name and description hold nothing but whitespace is
    turned down: the warning is shown, and the store, the matcher, the form
    and the list stay as they are. *)
Theorem submit_item_rejects_blank_form (uuid today : string) (a : App) :
  Str.all_chars Str.is_space (name_entry (widgets a)) = true ->
  Str.all_chars Str.is_space (desc_text (widgets a)) = true ->
  submit_item uuid today a
  = (a, [ShowWarning "Missing" "Please add at least a name or description"],
     None).
Proof.
  intros En Ed. unfold submit_item.
  rewrite (strip_spaces (name_entry (widgets a))) by exact En.
  rewrite (strip_spaces (text_get (desc_text (widgets a)))).
  - reflexivity.
  - unfold text_get. now rewrite all_chars_app, Ed, newline_is_space.
Qed.

(** X21.  A form with a name or a description, submitted under a fresh
    identifier, is stored before anything else happens: whatever the outcome
    of the matching and of the list refresh, the store afterwards is the old
    one followed by the new record with its fields stripped, and the
    'Saved' notice was shown first.  If the matching raises, the form is not
    cleared and the list is not refreshed. *)
Theorem submit_item_stores_before_matching (uuid today : string) (a a' : App)
    (shown : list dialog) (raised : option app_exn) :
  let f := widgets a in
  let it :=
    {| id := uuid; type := type_var f;
       name := Some (Strip.strip (name_entry f));
       description := Some (Strip.strip (text_get (desc_text f)));
       place := Some (Strip.strip (place_entry f)); date := Some today;
       contact := Some (Strip.strip (contact_entry f));
       image_path := selected_image_path f |} in
  Strip.strip (name_entry f) <> ""
  \/ Strip.strip (text_get (desc_text f)) <> "" ->
  has_id (db (matcher a)) uuid = false ->
  submit_item uuid today a = (a', shown, raised) ->
  db (matcher a') = db (matcher a) ++ [it]
  /\ hd_error shown = Some (ShowInfo "Saved" "Item saved to database")
  /\ (forall e, raised = Some (MatcherError e) ->
                widgets a' = f /\ tree a' = tree a)
  /\ ((forall e, raised <> Some (MatcherError e)) ->
      widgets a' = common_clear_form f).
Proof.
  intros f it Hfill Hid. unfold submit_item. fold f.
  assert (String.eqb (Strip.strip (name_entry f)) ""
          && String.eqb (Strip.strip (text_get (desc_text f))) "" = false)
    as ->.
  { apply andb_false_iff.
    destruct Hfill as [Hn | Hn]; [left | right]; now apply String.eqb_neq. }
  unfold add_item. cbn [id]. rewrite Hid. fold it.
  pose proof (find_matches_keeps_db it 5 (with_db (matcher a) (db (matcher a) ++ [it])))
    as Hdb.
  destruct (find_matches it 5 (with_db (matcher a) (db (matcher a) ++ [it])))
    as [m [matches | e]]; cbn [fst with_db db] in Hdb.
  - unfold refresh_list. cbn [matcher widgets search_var tree].
    destruct (fill_tree_spec
                (get_items (db m) None (Some (Strip.strip (search_var a)))) [])
      as [[_ (lines & Ef & _)] | [_ (lines & msg & Ef)]]; rewrite Ef;
      intros [= <- <- <-]; cbn [matcher widgets tree];
      (split; [exact Hdb |]); (split; [now destruct matches |]);
      (split; [discriminate | reflexivity]).
  - intros [= <- <- <-]. cbn [matcher widgets tree].
    split; [exact Hdb |]. split; [reflexivity |]. split; [auto |].
    intros Hne. now destruct (Hne e).
Qed.

End Submission.

Lemma get_items_incl (d : DB) (t s : option string) :
  incl (get_items d t s) d.
Proof.
  unfold get_items. intros x.
  destruct (Str.truthy t && Str.truthy s);
    [| destruct (Str.truthy t); [| destruct (Str.truthy s)]];
    try (intros Hx; apply filter_In in Hx as [Hx _]; exact Hx); auto.
Qed.

Section SubmissionInvariant.

Context `{NLTK}.

(** X22.  Records stored through the form never break the record list: if
    every row of the store has a name, a place and a contact that are not
    NULL, the same holds after [submit_item], whatever its outcome, and the
    call does not end in the [TypeError] of slicing a NULL. *)
Theorem submit_item_keeps_rows_listable (uuid today : string) (a a' : App)
    (shown : list dialog) (raised : option app_exn) :
  Forall listable (db (matcher a)) ->
  submit_item uuid today a = (a', shown, raised) ->
  Forall listable (db (matcher a'))
  /\ forall msg, raised <> Some (TypeError msg).
Proof.
  intros Hl. unfold submit_item.
  destruct (String.eqb _ "" && String.eqb _ "").
  { intros [= <- <- <-]. split; [exact Hl | discriminate]. }
  unfold add_item. cbn [id].
  destruct (has_id (db (matcher a)) uuid).
  { intros [= <- <- <-]. split; [exact Hl | discriminate]. }
  set (it := {| id := uuid; type := _; name := _; description := _;
                place := _; date := _; contact := _; image_path := _ |}).
  assert (Forall listable (db (matcher a) ++ [it])) as Hl'.
  { apply Forall_app. split; [exact Hl |].
    constructor; [| constructor]. repeat split; discriminate. }
  pose proof (find_matches_keeps_db it 5
                (with_db (matcher a) (db (matcher a) ++ [it]))) as Hdb.
  destruct (find_matches it 5 (with_db (matcher a) (db (matcher a) ++ [it])))
    as [m [matches | e]]; cbn [fst with_db db] in Hdb.
  - unfold refresh_list. cbn [matcher widgets search_var tree].
    destruct (fill_tree_spec
                (get_items (db m) None (Some (Strip.strip (search_var a)))) [])
      as [[_ (lines & Ef & _)] | [Hn _]].
    + rewrite Ef. intros [= <- <- <-]. cbn [matcher].
      rewrite Hdb. split; [exact Hl' | discriminate].
    + exfalso. apply Hn. apply Forall_forall. intros x Hx.
      apply get_items_incl in Hx. rewrite Hdb in Hx.
      rewrite Forall_forall in Hl'. now apply Hl'.
  - intros [= <- <- <-]. cbn [matcher].
    rewrite Hdb. split; [exact Hl' | discriminate].
Qed.

End SubmissionInvariant.

Lemma submit_item_rejects_blank_form_witness :
  submit_item "u-1" "2024-02-01" (app_with desk_db blank_form)
  = (app_with desk_db blank_form,
     [ShowWarning "Missing" "Please add at least a name or description"],
     None).
Proof.
  apply (submit_item_rejects_blank_form "u-1" "2024-02-01"
           (app_with desk_db blank_form)); reflexivity.
Defined.

(** The witness is the failing store of C2: the submission raises in the
    matcher, and the record is in the store all the same. *)
Lemma submit_item_stores_before_matching_witness :
  exists a' shown e,
    submit_item "u-2" "2024-02-01" (app_with digits_db sample_form)
    = (a', shown, Some (MatcherError e))
    /\ map id (db (matcher a')) = ["f9"; "u-2"]
    /\ widgets a' = sample_form.
Proof.
  assert (exists a' shown e,
            submit_item "u-2" "2024-02-01" (app_with digits_db sample_form)
            = (a', shown, Some (MatcherError e))) as (a' & shown & e & Hs)
    by (do 3 eexists; vm_compute; reflexivity).
  exists a', shown, e. split; [exact Hs |].
  destruct (submit_item_stores_before_matching "u-2" "2024-02-01"
              (app_with digits_db sample_form) a' shown
              (Some (MatcherError e))) as (Hdb & _ & Hcrash & _).
  - left. vm_compute. discriminate.
  - reflexivity.
  - exact Hs.
  - rewrite Hdb. split; [reflexivity |].
    now destruct (Hcrash e eq_refl).
Defined.

Lemma submit_item_keeps_rows_listable_witness :
  exists a' shown,
    submit_item "u-3" "2024-02-01" (app_with desk_db sample_form)
    = (a', shown, None)
    /\ Forall listable (db (matcher a'))
    /\ List.length (tree a') = 3.
Proof.
  assert (exists a' shown,
            submit_item "u-3" "2024-02-01" (app_with desk_db sample_form)
            = (a', shown, None)
            /\ List.length (tree a') = 3) as (a' & shown & Hs & Ht)
    by (do 2 eexists; split; vm_compute; reflexivity).
  exists a', shown. split; [exact Hs |]. split; [| exact Ht].
  apply (submit_item_keeps_rows_listable "u-3" "2024-02-01"
           (app_with desk_db sample_form) a' shown None); [| exact Hs].
  repeat constructor; discriminate.
Defined.

Lemma combine_fst_all {A B : Type} (a : list A) (b : list B) :
  List.length a = List.length b -> map fst (combine a b) = a.
Proof.
  revert b. induction a as [| x a IH]; intros [| y b] E; simpl in *;
    try discriminate; [reflexivity |].
  f_equal. apply IH. lia.
Qed.

Section Corpus.

Context `{NLTK}.

(** X23.  Every call rebuilds the matcher's corpus from the store: after
    [find_matches], whether it returned or raised, [corpus_ids] are the
    identifiers of the opposite-type records in table order and
    [corpus_texts] has one text per identifier.  A call that raises leaves
    the vectorizer of the previous call in place. *)
Theorem find_matches_rebuilds_corpus (it : item) (k : Z) (m : Matcher) :
  let m' := fst (find_matches it k m) in
  corpus_ids m' = map id (get_items (db m) (Some (opposite_of it)) None)
  /\ List.length (corpus_texts m') = List.length (corpus_ids m')
  /\ (forall e, snd (find_matches it k m) = Raises e ->
                vectorizer m' = vectorizer m).
Proof.
  unfold find_matches, build, bind, get_self, set_corpus, set_vectorizer,
    lift, ret.
  cbn [db vectorizer corpus_ids corpus_texts fst snd].
  destruct (List.length _ =? 0) eqn:El; cbn.
  - rewrite !length_map. repeat split. discriminate.
  - destruct (Sklearn.fit _); cbn.
    + destruct (attach_scores _ _ _); cbn.
      rewrite !length_map. repeat split. discriminate.
    + rewrite !length_map. repeat split.
Qed.

(** X24.  With distinct identifiers and [topk] at least the number of
    opposite-type records, nothing is left out: the identifiers of the rows
    returned are those of all the opposite-type records, each once. *)
Theorem large_topk_returns_whole_corpus (it : item) (k : Z) (m : Matcher)
    (rows : list row) :
  let items := get_items (db m) (Some (opposite_of it)) None in
  NoDup (map id (db m)) ->
  (Z.of_nat (List.length items) <= k)%Z ->
  snd (find_matches it k m) = Returns rows ->
  Permutation (map (fun r => id (fst r)) rows) (map id items).
Proof.
  intros items Hd Hk Hr.
  destruct (find_matches_cases it k m)
    as [[E R] | [[_ (e & _ & R)] | [_ (v & heap & results & Ef & Ea & R)]]];
    rewrite R in Hr; try discriminate; injection Hr as <-.
  - unfold items. rewrite E. constructor.
  - apply attach_scores_join in Ea.
    + destruct Ea as (new & -> & Hnew & _). simpl.
      apply deref_join in Hnew.
      set (sims := similarities v (preprocess (Some (document_text it)))
                     (map (fun r => preprocess (Some (document_text r)))
                        (get_items (db m) (Some (opposite_of it)) None)))
        in *.
      fold items in Hnew.
      assert (List.length (map id items) = List.length sims) as Elen.
      { unfold sims. fold items.
        now rewrite similarities_length, !length_map. }
      assert (Py.slice_to k (ranked PrimFloat.ltb (map id items) sims)
              = ranked PrimFloat.ltb (map id items) sims) as Es.
      { unfold Py.slice_to. destruct (Z.leb_spec 0 k); [| lia].
        apply firstn_all2. rewrite ranked_length by exact Elen.
        rewrite length_map. lia. }
      rewrite Es in Hnew.
      apply Permutation_trans
        with (l' := map fst (ranked PrimFloat.ltb (map id items) sims)).
      * clear - Hnew. induction Hnew as [| r cs l1 l2 [Hi _] _ IH];
          [constructor |]. simpl. rewrite Hi. now constructor.
      * unfold ranked. etransitivity.
        -- apply Permutation_map, sorted_perm.
        -- unfold Py.zip. now rewrite combine_fst_all.
    + apply top_ids_distinct. rewrite get_items_by_type.
      now apply NoDup_filter_ids.
    + intros cid s Hc. rewrite map_map. simpl.
      eapply top_ids_known. exact Hc.
    + intros i it' o [].
Qed.

End Corpus.

Lemma large_topk_returns_whole_corpus_witness :
  exists rows,
    snd (find_matches lost_umbrella 3 (Matcher_init sample_db)) = Returns rows
    /\ Permutation (map (fun r => id (fst r)) rows) ["f1"; "f2"; "f3"].
Proof.
  assert (exists rows,
            snd (find_matches lost_umbrella 3 (Matcher_init sample_db))
            = Returns rows) as [rows Hr]
    by (eexists; vm_compute; reflexivity).
  exists rows. split; [exact Hr |].
  apply (large_topk_returns_whole_corpus lost_umbrella 3
           (Matcher_init sample_db) rows sample_ids_distinct);
    [vm_compute; discriminate | exact Hr].
Defined.

(** ** The ranking returned by [find_matches] *)

Section Ranking.

Context `{NLTK}.

(** C3.  What [find_matches] returns is the head of a stable descending
    sort: in a store with distinct identifiers, and for scores that [<]
    orders weakly (no NaN), the rows returned are, in order and each with its
    own score, the first [topk] entries of a ranking of the corpus that is
    sorted by descending score and in which candidates whose scores tie keep
    the order in which the corpus supplied their documents to [fit].  A
    second call on the matcher left by the first returns the same rows. *)
Theorem ranking_is_stable_descending (it : item) (k : Z) (m : Matcher)
    (rows : list row) :
  let items := get_items (db m) (Some (opposite_of it)) None in
  let texts := map (fun r => preprocess (Some (document_text r))) items in
  let query := preprocess (Some (document_text it)) in
  NoDup (map id (db m)) ->
  (forall v, Sklearn.fit texts = Returns v ->
             weak_order_on PrimFloat.ltb (similarities v query texts)) ->
  snd (find_matches it k m) = Returns rows ->
  ((items = [] /\ rows = [])
   \/ exists v,
        Sklearn.fit texts = Returns v
        /\ let sims := similarities v query texts in
           let ranking := ranked PrimFloat.ltb (map id items) sims in
           Forall2 (fun r cs => id (fst r) = fst cs /\ snd r = Some (snd cs))
             rows (Py.slice_to k ranking)
           /\ Permutation ranking (Py.zip (map id items) sims)
           /\ StronglySorted (not_below PrimFloat.ltb) ranking
           /\ (forall s, In s sims ->
                 filter (tie PrimFloat.ltb s) ranking
                 = filter (tie PrimFloat.ltb s) (Py.zip (map id items) sims)))
  /\ snd (find_matches it k (fst (find_matches it k m))) = Returns rows.
Proof.
  intros items texts query Hd Hw Hr. split.
  - destruct (find_matches_cases it k m)
      as [[E R] | [[_ (e & _ & R)] | [_ (v & heap & results & Ef & Ea & R)]]];
      rewrite R in Hr; try discriminate; injection Hr as <-.
    + left. auto.
    + right. exists v. split; [exact Ef |].
      fold items in Ea. fold texts in Ea. fold query in Ea.
      specialize (Hw v Ef).
      intros sims ranking. fold sims in Ea, Hw. fold ranking in Ea.
      split; [| split; [| split]].
      * apply attach_scores_join in Ea.
        -- destruct Ea as (new & -> & Hnew & _). simpl. now apply deref_join.
        -- apply top_ids_distinct. unfold items.
           rewrite get_items_by_type. now apply NoDup_filter_ids.
        -- intros cid s Hc. rewrite map_map. simpl.
           eapply top_ids_known. exact Hc.
        -- intros i it' o [].
      * apply sorted_perm.
      * apply sorted_sorted.
        eapply weak_order_incl; [apply zip_snd_incl | exact Hw].
      * intros s Hs. apply (sorted_stable _ _ PrimFloat.ltb snd s).
        eapply weak_order_incl; [| exact Hw].
        intros x [<- | Hx];
          [exact Hs | now apply (zip_snd_incl (map id items) sims)].
  - rewrite <- Hr. apply find_matches_reads_db_only, find_matches_keeps_db.
Qed.

End Ranking.

Lemma ranking_is_stable_descending_witness :
  let q := sample "q3" "lost" (Some "black wallet") None (Some "library") in
  exists rows,
    snd (find_matches q 5 (Matcher_init sample_db)) = Returns rows
    /\ map (fun r => id (fst r)) rows = ["f3"; "f1"; "f2"]
    /\ snd (find_matches q 5 (fst (find_matches q 5 (Matcher_init sample_db))))
       = Returns rows.
Proof.
  intros q.
  assert (exists rows,
            snd (find_matches q 5 (Matcher_init sample_db)) = Returns rows
            /\ map (fun r => id (fst r)) rows = ["f3"; "f1"; "f2"])
    as (rows & Hr & Hi)
    by (eexists; split; vm_compute; reflexivity).
  exists rows. split; [exact Hr |]. split; [exact Hi |].
  apply (ranking_is_stable_descending q 5 (Matcher_init sample_db) rows).
  - exact sample_ids_distinct.
  - intros v Ef. vm_compute in Ef. injection Ef as <-.
    vm_compute. split.
    + intros a b [<- | [<- | [<- | []]]] [<- | [<- | [<- | []]]];
        vm_compute; congruence.
    + intros a b c [<- | [<- | [<- | []]]] [<- | [<- | [<- | []]]]
        [<- | [<- | [<- | []]]]; vm_compute; congruence.
  - exact Hr.
Defined.

(** C6.  The spec's own scenario breaks the upper bound: a lost record
    matched against a found record with the same name and place gets a score
    above [1.0].  Every term of the single corpus document has [idf] exactly
    [1.0]; the three weights [1/sqrt 3], normalized a second time by
    [cosine_similarity] and multiplied, sum to [1 + 2^-52]. *)
Theorem self_match_scores_above_one :
  exists r s,
    snd (find_matches
           (sample "q3" "lost" (Some "black wallet") None (Some "library"))
           5
           (Matcher_init
              [sample "f3" "found" (Some "black wallet") None (Some "library")]))
    = Returns [r]
    /\ snd r = Some s
    /\ PrimFloat.ltb 1 s = true
    /\ PrimFloat.leb s 1 = false.
Proof.
  do 2 eexists. split; [vm_compute; reflexivity |].
  split; [reflexivity |]. split; vm_compute; reflexivity.
Qed.
